(** * ZAP Quantum Vault: the database checker and the trust-level test script

    A shallow embedding of [check_database.py] (the locator [find_database]
    and the inspector [check_database]) and of [test_trust_levels.py] (the
    upsert verifier [test_trust_levels]), with the properties the
    specification states about them.

    The scripts talk to two pieces of environment: the filesystem (through
    [pathlib] and [glob]) and an SQLite file (through [sqlite3]).  Both are
    modelled as explicit state: a filesystem is a record [FS], a database
    file is a record [Db], an open connection is a record [Conn], and the
    scripts are written in a small state-and-exception monad [M]. *)

From Stdlib Require Import String Ascii List Bool Arith Lia Sorted Permutation.
Import ListNotations.
Open Scope string_scope.

(* ================================================================= *)
(** ** Strings *)

(** Python's [s.replace(old, new)] for a non-empty [old]: the occurrences
    of [old] are found from left to right, without overlap, and each is
    replaced by [new].  [skip] counts the characters of an occurrence that
    are still to be dropped. *)
Fixpoint replace_from (old new : string) (skip : nat) (s : string) : string :=
  match s with
  | EmptyString => EmptyString
  | String c rest =>
      match skip with
      | S k => replace_from old new k rest
      | O =>
          if prefix old s
          then new ++ replace_from old new (String.length old - 1) rest
          else String c (replace_from old new 0 rest)
      end
  end.

Definition replace (old new s : string) : string := replace_from old new 0 s.

(** What the specification describes instead: [prefix] removed from the
    front of [s] only (Python's [s.removeprefix(prefix)]). *)
Fixpoint drop (n : nat) (s : string) : string :=
  match n, s with
  | O, _ => s
  | S k, String _ rest => drop k rest
  | S _, EmptyString => EmptyString
  end.

Definition strip_prefix (pre s : string) : string :=
  if prefix pre s then drop (String.length pre) s else s.

(** [occurs old s]: [old] occurs somewhere in [s]. *)
Fixpoint occurs (old s : string) : bool :=
  match s with
  | EmptyString => prefix old EmptyString
  | String _ rest => prefix old s || occurs old rest
  end.

(* ================================================================= *)
(** ** The data model *)

(** A value of a result row. *)
Inductive Value : Type :=
| VText (s : string)
| VInt (n : nat).

(** A row of [usb_drive_trust]. *)
Record TrustRow : Type := mkTrust {
  tr_id : string;
  tr_user_id : string;
  tr_drive_id : string;
  tr_device_path : string;
  tr_drive_label : string;
  tr_trust_level : string;
  tr_created_at : string;
  tr_updated_at : string
}.

(** A row of [usb_drive_passwords]. *)
Record PasswordRow : Type := mkPassword {
  pw_id : string;
  pw_user_id : string;
  pw_drive_id : string;
  pw_device_path : string;
  pw_drive_label : string;
  pw_encrypted_password : string;
  pw_password_hint : string;
  pw_created_at : string;
  pw_updated_at : string
}.

(** A row of [users]. *)
Record UserRow : Type := mkUser {
  us_id : string;
  us_username : string;
  us_email : string
}.

(** Modelled from the spec: the [CREATE TABLE] declarations of the three
    tables are not part of the scripts.  The specification gives the columns
    and the primary key [id] of each table, and says that [(user_id,
    drive_id)] is "intended unique"; whether the declaration carries a
    [UNIQUE(user_id, drive_id)] constraint is therefore kept as a field of
    the table, [unique_user_drive] (it has no meaning for [users]).
    [columns] is what [PRAGMA table_info] reports: name and declared type.
    [rows] are in rowid order, the order of a table scan. *)
Record Table (R : Type) : Type := mkTable {
  columns : list (string * string);
  unique_user_drive : bool;
  rows : list R
}.
Arguments mkTable {R} _ _ _.
Arguments columns {R} _.
Arguments unique_user_drive {R} _.
Arguments rows {R} _.

(** The content of a database file: each of the three tables is present or
    not, and [other_tables] names the further tables of the catalog. *)
Record Db : Type := mkDb {
  usb_drive_trust : option (Table TrustRow);
  usb_drive_passwords : option (Table PasswordRow);
  users : option (Table UserRow);
  other_tables : list string
}.

Definition empty_db : Db := mkDb None None None [].

Definition present {A : Type} (o : option A) (name : string) : list string :=
  match o with Some _ => [name] | None => [] end.

(** The names in [sqlite_master] with [type='table']. *)
Definition table_names (db : Db) : list string :=
  present (users db) "users"
  ++ present (usb_drive_passwords db) "usb_drive_passwords"
  ++ present (usb_drive_trust db) "usb_drive_trust"
  ++ other_tables db.

(* ================================================================= *)
(** ** The filesystem *)

Inductive Entry : Type :=
| Directory
| File (content : Db).

(** A filesystem state, as the scripts see it.  Paths are strings.
    [entry p] is what is at path [p]; [glob pat] is the result of
    [glob.glob(pat, recursive=True)] in this state, in the order the
    traversal yields it. *)
Record FS : Type := mkFS {
  home : string;
  cwd : string;
  entry : string -> option Entry;
  glob : string -> list string
}.

(** [Path.exists()]: true of any kind of entry. *)
Definition path_exists (fs : FS) (p : string) : bool :=
  match entry fs p with Some _ => true | None => false end.

Definition is_file (fs : FS) (p : string) : bool :=
  match entry fs p with Some (File _) => true | _ => false end.

(** [p / q] of [pathlib], for a relative [q]. *)
Definition pjoin (p q : string) : string :=
  if String.eqb p "/" then "/" ++ q else p ++ "/" ++ q.

Definition possible_paths (fs : FS) : list string :=
  [ pjoin (home fs) ".local/share/com.zap-vault/vault.db";
    pjoin (home fs) ".local/share/zap-vault/vault.db";
    pjoin (home fs) ".config/zap-vault/vault.db";
    pjoin "/tmp" "vault.db";
    pjoin (cwd fs) "vault.db";
    pjoin (pjoin (cwd fs) "src-tauri") "vault.db" ].

Definition search_patterns (fs : FS) : list string :=
  [ pjoin (home fs) ".local/share/**/vault.db";
    pjoin (home fs) ".config/**/vault.db";
    "/tmp/**/vault.db";
    pjoin (cwd fs) "**/vault.db" ].

(** The first loop of [find_database]. *)
Fixpoint first_existing (fs : FS) (paths : list string) : option string :=
  match paths with
  | [] => None
  | path :: rest => if path_exists fs path then Some path else first_existing fs rest
  end.

(** The second loop of [find_database]. *)
Fixpoint first_match (fs : FS) (patterns : list string) : option string :=
  match patterns with
  | [] => None
  | pattern :: rest =>
      match glob fs pattern with
      | m :: _ => Some m
      | [] => first_match fs rest
      end
  end.

Definition find_database (fs : FS) : option string :=
  match first_existing fs (possible_paths fs) with
  | Some path => Some path
  | None => first_match fs (search_patterns fs)
  end.

(* ================================================================= *)
(** ** The SQL statements of the two scripts *)

Inductive Stmt : Type :=
| CatalogTable (name : string)
    (** [SELECT name FROM sqlite_master WHERE type='table' AND name=<name>] *)
| CatalogTables
    (** [SELECT name FROM sqlite_master WHERE type='table'] *)
| TableInfoPasswords
    (** [PRAGMA table_info(usb_drive_passwords)] *)
| CountPasswords
    (** [SELECT COUNT( * ) FROM usb_drive_passwords] *)
| CountTrust
    (** [SELECT COUNT( * ) FROM usb_drive_trust] *)
| CountUsers
    (** [SELECT COUNT( * ) FROM users] *)
| RecentPasswords
    (** [SELECT id, user_id, drive_id, device_path, drive_label, password_hint,
        created_at, updated_at FROM usb_drive_passwords
        ORDER BY created_at DESC LIMIT 5] *)
| SampleUsers
    (** [SELECT id, username, email FROM users LIMIT 3] *)
| UpsertTrust (r : TrustRow)
    (** [INSERT OR REPLACE INTO usb_drive_trust (...) VALUES (...)] *)
| UpsertPassword (r : PasswordRow)
    (** [INSERT OR REPLACE INTO usb_drive_passwords (...) VALUES (...)] *)
| SelectTrustByDrive (drive_id : string)
    (** [SELECT * FROM usb_drive_trust WHERE drive_id = ?] *)
| SelectPasswordsByDrive (drive_id : string)
    (** [SELECT * FROM usb_drive_passwords WHERE drive_id = ?]: the read the
        specification describes for the password table; [test_trust_levels]
        does not issue it. *)
.

Inductive Exn : Type :=
| OperationalError (msg : string)
| ProgrammingError (msg : string)
| IndexError
| TypeError.

Definition no_such_table (name : string) : Exn :=
  OperationalError ("no such table: " ++ name).

(** *** Rows as result tuples *)

Definition trust_values (r : TrustRow) : list Value :=
  [ VText (tr_id r); VText (tr_user_id r); VText (tr_drive_id r);
    VText (tr_device_path r); VText (tr_drive_label r); VText (tr_trust_level r);
    VText (tr_created_at r); VText (tr_updated_at r) ].

Definition password_values (r : PasswordRow) : list Value :=
  [ VText (pw_id r); VText (pw_user_id r); VText (pw_drive_id r);
    VText (pw_device_path r); VText (pw_drive_label r);
    VText (pw_encrypted_password r); VText (pw_password_hint r);
    VText (pw_created_at r); VText (pw_updated_at r) ].

(** The eight columns [RecentPasswords] selects. *)
Definition recent_values (r : PasswordRow) : list Value :=
  [ VText (pw_id r); VText (pw_user_id r); VText (pw_drive_id r);
    VText (pw_device_path r); VText (pw_drive_label r);
    VText (pw_password_hint r); VText (pw_created_at r); VText (pw_updated_at r) ].

Definition user_values (r : UserRow) : list Value :=
  [ VText (us_id r); VText (us_username r); VText (us_email r) ].

(** The first three fields of a row of [PRAGMA table_info]: the column's
    index, name and declared type (the scripts read the last two). *)
Definition column_values (c : nat * (string * string)) : list Value :=
  [ VInt (fst c); VText (fst (snd c)); VText (snd (snd c)) ].

Definition table_info (cols : list (string * string)) : list (list Value) :=
  map column_values (combine (seq 0 (length cols)) cols).

(** *** INSERT OR REPLACE

    SQLite's REPLACE conflict resolution deletes every row that conflicts
    with the new one on the primary key or on a declared UNIQUE constraint,
    and then inserts the new row, which gets a fresh rowid and so comes last
    in a table scan. *)

Definition trust_conflict (uq : bool) (new old : TrustRow) : bool :=
  String.eqb (tr_id old) (tr_id new)
  || (uq && String.eqb (tr_user_id old) (tr_user_id new)
         && String.eqb (tr_drive_id old) (tr_drive_id new)).

Definition password_conflict (uq : bool) (new old : PasswordRow) : bool :=
  String.eqb (pw_id old) (pw_id new)
  || (uq && String.eqb (pw_user_id old) (pw_user_id new)
         && String.eqb (pw_drive_id old) (pw_drive_id new)).

Definition insert_or_replace {R : Type} (conflict : R -> R -> bool)
    (new : R) (rs : list R) : list R :=
  filter (fun old => negb (conflict new old)) rs ++ [new].

Definition upsert_trust (r : TrustRow) (t : Table TrustRow) : Table TrustRow :=
  mkTable (columns t) (unique_user_drive t)
          (insert_or_replace (trust_conflict (unique_user_drive t)) r (rows t)).

Definition upsert_password (r : PasswordRow) (t : Table PasswordRow) : Table PasswordRow :=
  mkTable (columns t) (unique_user_drive t)
          (insert_or_replace (password_conflict (unique_user_drive t)) r (rows t)).

(** *** ORDER BY created_at DESC

    A stable sort of the table scan, greatest [created_at] first; TEXT
    values compare bytewise. *)

Fixpoint insert_desc (x : PasswordRow) (l : list PasswordRow) : list PasswordRow :=
  match l with
  | [] => [x]
  | y :: l' =>
      if String.ltb (pw_created_at x) (pw_created_at y)
      then y :: insert_desc x l'
      else x :: l
  end.

Fixpoint order_by_created_at_desc (l : list PasswordRow) : list PasswordRow :=
  match l with
  | [] => []
  | x :: l' => insert_desc x (order_by_created_at_desc l')
  end.

(** *** Running one statement on a database *)

Definition with_table {R : Type} (name : string) (o : option (Table R))
    (k : Table R -> list (list Value) * Db) : Exn + (list (list Value) * Db) :=
  match o with
  | None => inl (no_such_table name)
  | Some t => inr (k t)
  end.

Definition run_stmt (s : Stmt) (db : Db) : Exn + (list (list Value) * Db) :=
  match s with
  | CatalogTable name =>
      inr (map (fun n => [VText n]) (filter (String.eqb name) (table_names db)), db)
  | CatalogTables =>
      inr (map (fun n => [VText n]) (table_names db), db)
  | TableInfoPasswords =>
      (* a PRAGMA on a missing table returns no row *)
      inr (match usb_drive_passwords db with
           | None => []
           | Some t => table_info (columns t)
           end, db)
  | CountPasswords =>
      with_table "usb_drive_passwords" (usb_drive_passwords db)
        (fun t => ([[VInt (length (rows t))]], db))
  | CountTrust =>
      with_table "usb_drive_trust" (usb_drive_trust db)
        (fun t => ([[VInt (length (rows t))]], db))
  | CountUsers =>
      with_table "users" (users db)
        (fun t => ([[VInt (length (rows t))]], db))
  | RecentPasswords =>
      with_table "usb_drive_passwords" (usb_drive_passwords db)
        (fun t => (map recent_values (firstn 5 (order_by_created_at_desc (rows t))), db))
  | SampleUsers =>
      with_table "users" (users db)
        (fun t => (map user_values (firstn 3 (rows t)), db))
  | UpsertTrust r =>
      with_table "usb_drive_trust" (usb_drive_trust db)
        (fun t => ([], mkDb (Some (upsert_trust r t)) (usb_drive_passwords db)
                            (users db) (other_tables db)))
  | UpsertPassword r =>
      with_table "usb_drive_passwords" (usb_drive_passwords db)
        (fun t => ([], mkDb (usb_drive_trust db) (Some (upsert_password r t))
                            (users db) (other_tables db)))
  | SelectTrustByDrive d =>
      with_table "usb_drive_trust" (usb_drive_trust db)
        (fun t => (map trust_values
                       (filter (fun r => String.eqb (tr_drive_id r) d) (rows t)), db))
  | SelectPasswordsByDrive d =>
      with_table "usb_drive_passwords" (usb_drive_passwords db)
        (fun t => (map password_values
                       (filter (fun r => String.eqb (pw_drive_id r) d) (rows t)), db))
  end.

(* ================================================================= *)
(** ** Connections and the script monad *)

(** A connection: [durable] is the content of the file, [view] is what the
    connection reads (the file plus its own uncommitted writes). *)
Record Conn : Type := mkConn {
  durable : Db;
  view : Db;
  is_open : bool
}.

(** [sqlite3.connect(str(path))]: a directory cannot be opened; a path with
    nothing at it is created as an empty database. *)
Definition connect (fs : FS) (path : string) : Exn + Conn :=
  match entry fs path with
  | Some Directory => inl (OperationalError "unable to open database file")
  | Some (File db) => inr (mkConn db db true)
  | None => inr (mkConn empty_db empty_db true)
  end.

(** The calls on the connection that can fail. *)
Inductive Call : Type :=
| Execute (s : Stmt)
| Commit.

(** One piece of an f-string. *)
Inductive Part : Type :=
| Lit (text : string)
| Val (v : Value)
| Row (r : list Value)
| Err (e : Exn).

(** A printed line. *)
Definition Line : Type := list Part.

Record State : Type := mkState {
  conn : Conn;
  calls : list Call;   (* the calls made so far, oldest first *)
  out : list Line      (* the lines printed so far, oldest first *)
}.

Definition M (A : Type) : Type := State -> (Exn + A) * State.

Definition ret {A : Type} (a : A) : M A := fun st => (inr a, st).

Definition raise {A : Type} (e : Exn) : M A := fun st => (inl e, st).

Definition bind {A B : Type} (m : M A) (k : A -> M B) : M B :=
  fun st =>
    match m st with
    | (inl e, st') => (inl e, st')
    | (inr a, st') => k a st'
    end.

Notation "x <- m ;; k" := (bind m (fun x => k))
  (at level 61, m at next level, right associativity).
Notation "m ;; k" := (bind m (fun _ => k))
  (at level 61, right associativity).

(** [try: body except Exception as e: handler(e)] *)
Definition try_except {A : Type} (body : M A) (handler : Exn -> M A) : M A :=
  fun st =>
    match body st with
    | (inl e, st') => handler e st'
    | (inr a, st') => (inr a, st')
    end.

(** [try: body finally: final] *)
Definition try_finally {A : Type} (body : M A) (final : M unit) : M A :=
  fun st =>
    match body st with
    | (r, st') =>
        match final st' with
        | (inl e, st'') => (inl e, st'')
        | (inr _, st'') => (r, st'')
        end
    end.

Definition print (l : Line) : M unit :=
  fun st => (inr tt, mkState (conn st) (calls st) (out st ++ [l])).

Fixpoint for_each {A : Type} (l : list A) (body : A -> M unit) : M unit :=
  match l with
  | [] => ret tt
  | x :: l' => body x ;; for_each l' body
  end.

(** [row[i]] *)
Definition item (row : list Value) (i : nat) : M Value :=
  match nth_error row i with
  | Some v => ret v
  | None => raise IndexError
  end.

(** [cursor.fetchone()] on the rows a statement returned. *)
Definition fetchone (res : list (list Value)) : option (list Value) :=
  match res with
  | [] => None
  | row :: _ => Some row
  end.

(** [cursor.fetchone()[0]] *)
Definition fetchone_0 (res : list (list Value)) : M Value :=
  match fetchone res with
  | None => raise TypeError
  | Some row => item row 0
  end.

(** [v > 0] *)
Definition positive (v : Value) : M bool :=
  match v with
  | VInt n => ret (Nat.ltb 0 n)
  | VText _ => raise TypeError
  end.

Section Faults.

(** Failures that come from outside the database content (an I/O error, a
    locked file): [faults n = Some msg] makes the call number [n] on the
    connection (counted from 0) raise an error with that message. *)
Variable faults : nat -> option string.

Definition record_call (c : Call) (st : State) : State :=
  mkState (conn st) (calls st ++ [c]) (out st).

(** [cursor.execute(s)], returning the rows the cursor then holds. *)
Definition execute (s : Stmt) : M (list (list Value)) :=
  fun st =>
    let st1 := record_call (Execute s) st in
    if negb (is_open (conn st))
    then (inl (ProgrammingError "Cannot operate on a closed database."), st1)
    else
      match faults (length (calls st)) with
      | Some msg => (inl (OperationalError msg), st1)
      | None =>
          match run_stmt s (view (conn st)) with
          | inl e => (inl e, st1)
          | inr (res, db') =>
              (inr res,
               mkState (mkConn (durable (conn st)) db' true) (calls st1) (out st1))
          end
      end.

(** [conn.commit()] *)
Definition commit : M unit :=
  fun st =>
    let st1 := record_call Commit st in
    if negb (is_open (conn st))
    then (inl (ProgrammingError "Cannot operate on a closed database."), st1)
    else
      match faults (length (calls st)) with
      | Some msg => (inl (OperationalError msg), st1)
      | None =>
          (inr tt,
           mkState (mkConn (view (conn st)) (view (conn st)) true) (calls st1) (out st1))
      end.

(** [conn.close()]: uncommitted writes are dropped. *)
Definition close : M unit :=
  fun st =>
    (inr tt,
     mkState (mkConn (durable (conn st)) (durable (conn st)) false) (calls st) (out st)).

(** [if row:] on what [fetchone] returned. *)
Definition truthy (o : option (list Value)) : bool :=
  match o with
  | Some (_ :: _) => true
  | _ => false
  end.

(** [print(f"<text>{row[i]}")] *)
Definition print_item (text : string) (row : list Value) (i : nat) : M unit :=
  v <- item row i ;; print [Lit text; Val v].

(* ================================================================= *)
(** ** check_database.py *)

(** String literals are kept as the source writes them; an escape such as
    [\n] stays the two characters of the source text. *)

Definition not_found_report : list Line :=
  [ [Lit "❌ Database not found in common locations"];
    [Lit "Searched locations:"];
    [Lit "  - ~/.local/share/com.zap-vault/vault.db"];
    [Lit "  - ~/.local/share/zap-vault/vault.db"];
    [Lit "  - ~/.config/zap-vault/vault.db"];
    [Lit "  - /tmp/vault.db"];
    [Lit "  - ./vault.db"];
    [Lit "  - ./src-tauri/vault.db"] ].

(** The [try] block of [check_database] after [sqlite3.connect] is a
    sequence of two blocks, each introduced by a comment in the source,
    and [conn.close()]. *)

(** [# Check if usb_drive_passwords table exists] *)
Definition inspect_passwords : M unit :=
  found <- execute (CatalogTable "usb_drive_passwords") ;;
  if negb (truthy (fetchone found))
  then
    print [Lit "❌ usb_drive_passwords table not found"] ;;
    tables <- execute CatalogTables ;;
    print [Lit "Available tables:"] ;;
    for_each tables (fun table => print_item "  - " table 0)
  else
    print [Lit "✅ usb_drive_passwords table exists"] ;;
    cols <- execute TableInfoPasswords ;;
    print [Lit "\nTable schema:"] ;;
    for_each cols (fun col =>
      name <- item col 1 ;;
      ty <- item col 2 ;;
      print [Lit "  - "; Val name; Lit " ("; Val ty; Lit ")"]) ;;
    res <- execute CountPasswords ;;
    count <- fetchone_0 res ;;
    print [Lit "\nStored passwords: "; Val count] ;;
    some <- positive count ;;
    if (some : bool)
    then
      passwords <- execute RecentPasswords ;;
      print [Lit "\nRecent entries:"] ;;
      for_each passwords (fun pwd =>
        print_item "  ID: " pwd 0 ;;
        print_item "  User: " pwd 1 ;;
        print_item "  Drive ID: " pwd 2 ;;
        print_item "  Device: " pwd 3 ;;
        print_item "  Label: " pwd 4 ;;
        print_item "  Hint: " pwd 5 ;;
        print_item "  Created: " pwd 6 ;;
        print_item "  Updated: " pwd 7 ;;
        print [Lit "  ---"])
    else ret tt.

(** [# Check users table] *)
Definition inspect_users : M unit :=
  res <- execute CountUsers ;;
  user_count <- fetchone_0 res ;;
  print [Lit "\nUsers in database: "; Val user_count] ;;
  sample <- execute SampleUsers ;;
  print [Lit "Sample users:"] ;;
  for_each sample (fun user =>
    name <- item user 1 ;;
    email <- item user 2 ;;
    print [Lit "  - "; Val name; Lit " ("; Val email; Lit ")"]).

Definition inspect : M unit :=
  inspect_passwords ;;
  inspect_users ;;
  close.

(** What a run of a script leaves behind: the exception that escaped it, if
    any; the connection it opened, if any, in its final state; the calls it
    made on that connection; the lines it printed. *)
Record Run : Type := mkRun {
  raised : option Exn;
  connection : option Conn;
  calls_made : list Call;
  printed : list Line
}.

Definition finish {A : Type} (r : (Exn + A) * State) : Run :=
  mkRun (match fst r with inl e => Some e | inr _ => None end)
        (Some (conn (snd r))) (calls (snd r)) (out (snd r)).

Definition database_error (e : Exn) : Line := [Lit "❌ Database error: "; Err e].

(** [check_database()].  The [try] block starts with [sqlite3.connect]; when
    that raises, the handler runs and no connection exists. *)
Definition check_database (fs : FS) : Run :=
  match find_database fs with
  | None => mkRun None None [] not_found_report
  | Some db_path =>
      let found := [Lit "✅ Database found at: "; Val (VText db_path)] in
      match connect fs db_path with
      | inl e => mkRun None None [] [found; database_error e]
      | inr c =>
          finish (try_except inspect (fun e => print (database_error e))
                             (mkState c [] [found]))
      end
  end.

(* ================================================================= *)
(** ** test_trust_levels.py *)

Definition device_path (test_drive_id : string) : string :=
  "/dev/" ++ replace "usb_" "" test_drive_id.

Definition trust_record (test_drive_id test_trust_level now : string) : TrustRow :=
  mkTrust ("trust_" ++ test_drive_id) "admin" test_drive_id
          (device_path test_drive_id) "TEST_DRIVE" test_trust_level now now.

Definition password_record (test_drive_id now : string) : PasswordRow :=
  mkPassword ("pwd_" ++ test_drive_id) "admin" test_drive_id
             (device_path test_drive_id) "TEST_DRIVE"
             "encrypted_test_password" "test hint" now now.

(** The [try] block of [test_trust_levels], with its three local constants
    as parameters.  It is a sequence of four blocks, each introduced by a
    comment in the source. *)

(** [# Insert test trust level] *)
Definition insert_trust (test_drive_id test_trust_level now : string) : M unit :=
  execute (UpsertTrust (trust_record test_drive_id test_trust_level now)) ;;
  commit ;;
  print [Lit "✅ Successfully inserted test trust level"].

(** [# Verify insertion] *)
Definition verify_insertion (test_drive_id : string) : M unit :=
  res <- execute (SelectTrustByDrive test_drive_id) ;;
  match fetchone res with
  | Some (v :: vs) => print [Lit "✅ Trust level entry found: "; Row (v :: vs)]
  | _ => print [Lit "❌ Trust level entry not found after insertion"]
  end.

(** [# Test password insertion too] *)
Definition insert_password (test_drive_id now : string) : M unit :=
  execute (UpsertPassword (password_record test_drive_id now)) ;;
  commit ;;
  print [Lit "✅ Successfully inserted test password"].

(** [# Check both tables] *)
Definition check_both_tables : M unit :=
  res <- execute CountTrust ;;
  trust_count <- fetchone_0 res ;;
  res <- execute CountPasswords ;;
  pwd_count <- fetchone_0 res ;;
  print [Lit "📊 Database status:"] ;;
  print [Lit "  - Trust entries: "; Val trust_count] ;;
  print [Lit "  - Password entries: "; Val pwd_count].

Definition verify (test_drive_id test_trust_level now : string) : M unit :=
  insert_trust test_drive_id test_trust_level now ;;
  verify_insertion test_drive_id ;;
  insert_password test_drive_id now ;;
  check_both_tables.

Definition operation_failed (e : Exn) : Line :=
  [Lit "❌ Database operation failed: "; Err e].

(** [Path.home() / '.local/share/com.zap-vault/vault.db'] *)
Definition vault_db_path (fs : FS) : string :=
  pjoin (home fs) ".local/share/com.zap-vault/vault.db".

(** [test_trust_levels()] with its constants as parameters.
    [sqlite3.connect] is outside the [try]: an exception there escapes. *)
Definition test_trust_levels_with (test_drive_id test_trust_level now : string)
    (fs : FS) : Run :=
  let db_path := vault_db_path fs in
  if negb (path_exists fs db_path)
  then mkRun None None [] [[Lit "❌ Database not found"]]
  else
    match connect fs db_path with
    | inl e => mkRun (Some e) None [] []
    | inr c =>
        finish (try_finally
                  (try_except (verify test_drive_id test_trust_level now)
                              (fun e => print (operation_failed e)))
                  close
                  (mkState c [] []))
    end.

Definition test_trust_levels : FS -> Run :=
  test_trust_levels_with "usb_sde1" "trusted" "2025-09-01T15:54:00Z".

End Faults.

(** No failure from outside the database content. *)
Definition no_faults : nat -> option string := fun _ => None.

(** A connection just opened on [db]: nothing called or printed yet. *)
Definition opened (db : Db) : State := mkState (mkConn db db true) [] [].


(** The [(user_id, drive_id)] pair of a record. *)
Definition trust_pair (r : TrustRow) : string * string := (tr_user_id r, tr_drive_id r).

(* ================================================================= *)
(** ** Stores that differ in ciphertext only *)

(** A password record with its ciphertext blanked. *)
Definition redact (r : PasswordRow) : PasswordRow :=
  mkPassword (pw_id r) (pw_user_id r) (pw_drive_id r) (pw_device_path r)
             (pw_drive_label r) "" (pw_password_hint r)
             (pw_created_at r) (pw_updated_at r).

(** Two databases are the same except for the values of
    [encrypted_password] in [usb_drive_passwords]. *)
Definition same_but_ciphertext (db1 db2 : Db) : Prop :=
  usb_drive_trust db1 = usb_drive_trust db2
  /\ users db1 = users db2
  /\ other_tables db1 = other_tables db2
  /\ match usb_drive_passwords db1, usb_drive_passwords db2 with
     | None, None => True
     | Some p1, Some p2 =>
         columns p1 = columns p2
         /\ unique_user_drive p1 = unique_user_drive p2
         /\ map redact (rows p1) = map redact (rows p2)
     | _, _ => False
     end.

Definition same_entry_but_ciphertext (e1 e2 : option Entry) : Prop :=
  match e1, e2 with
  | None, None => True
  | Some Directory, Some Directory => True
  | Some (File db1), Some (File db2) => same_but_ciphertext db1 db2
  | _, _ => False
  end.

(** Two filesystems are the same except for ciphertext values in the
    database files they hold. *)
Definition same_fs_but_ciphertext (fs1 fs2 : FS) : Prop :=
  home fs1 = home fs2
  /\ cwd fs1 = cwd fs2
  /\ (forall pat, glob fs1 pat = glob fs2 pat)
  /\ (forall p, same_entry_but_ciphertext (entry fs1 p) (entry fs2 p)).

(** The statements [check_database] issues. *)
Definition inspector_statement (s : Stmt) : bool :=
  match s with
  | CatalogTable _ | CatalogTables | TableInfoPasswords | CountPasswords
  | CountUsers | RecentPasswords | SampleUsers => true
  | _ => false
  end.


(** [a] is not older than [b]: its [created_at] is not below [b]'s. *)
Definition not_older (a b : PasswordRow) : Prop :=
  String.ltb (pw_created_at a) (pw_created_at b) = false.

(** The call number [n] on the connection fails with [msg]; no other does. *)
Definition fault_at (n : nat) (msg : string) : nat -> option string :=
  fun k => if Nat.eqb k n then Some msg else None.

(* ================================================================= *)
(** ** States used in the examples *)

Module Examples.

Definition nothing : string -> option Entry := fun _ => None.

(** A home directory with no database anywhere. *)
Definition fs_empty : FS := mkFS "/home/u" "/work" nothing (fun _ => []).

(** [/tmp/vault.db] is a database file, and [~/.config/zap-vault/vault.db]
    is a directory. *)
Definition fs_dir_and_file : FS :=
  mkFS "/home/u" "/work"
       (fun p =>
          if String.eqb p "/home/u/.config/zap-vault/vault.db" then Some Directory
          else if String.eqb p "/tmp/vault.db" then Some (File empty_db)
          else None)
       (fun _ => []).

(** Only [/tmp/vault.db] exists, and every pattern matches some other file. *)
Definition fs_tmp_only : FS :=
  mkFS "/home/u" "/work"
       (fun p => if String.eqb p "/tmp/vault.db" then Some (File empty_db) else None)
       (fun _ => ["/elsewhere/vault.db"]).

(** The columns the specification lists for each table. *)
Definition trust_columns : list (string * string) :=
  [ ("id", "TEXT"); ("user_id", "TEXT"); ("drive_id", "TEXT");
    ("device_path", "TEXT"); ("drive_label", "TEXT"); ("trust_level", "TEXT");
    ("created_at", "TEXT"); ("updated_at", "TEXT") ].

Definition password_columns : list (string * string) :=
  [ ("id", "TEXT"); ("user_id", "TEXT"); ("drive_id", "TEXT");
    ("device_path", "TEXT"); ("drive_label", "TEXT");
    ("encrypted_password", "TEXT"); ("password_hint", "TEXT");
    ("created_at", "TEXT"); ("updated_at", "TEXT") ].

Definition user_columns : list (string * string) :=
  [ ("id", "TEXT"); ("username", "TEXT"); ("email", "TEXT") ].

Definition admin : UserRow := mkUser "admin" "admin" "admin@example.org".

Definition vault_path : string := "/home/u/.local/share/com.zap-vault/vault.db".

(** The database [db] at the first candidate path, and nothing else. *)
Definition fs_with (db : Db) : FS :=
  mkFS "/home/u" "/work"
       (fun p => if String.eqb p vault_path then Some (File db) else None)
       (fun _ => []).

(** All three tables, no drive record yet. *)
Definition db_fresh : Db :=
  mkDb (Some (mkTable trust_columns false []))
       (Some (mkTable password_columns false []))
       (Some (mkTable user_columns false [admin])) [].

(** The constants of [test_trust_levels]. *)
Definition now : string := "2025-09-01T15:54:00Z".
Definition later : string := "2025-09-02T08:00:00Z".

(** A database on which [test_trust_levels] has run once. *)
Definition db_seeded : Db :=
  mkDb (Some (mkTable trust_columns false [trust_record "usb_sde1" "trusted" now]))
       (Some (mkTable password_columns false [password_record "usb_sde1" now]))
       (Some (mkTable user_columns false [admin])) [].

(** Records the application wrote for the same drive under ids of its own:
    a trust record of [admin] and a password record of another user. *)
Definition app_trust : TrustRow :=
  mkTrust "7f3a" "admin" "usb_sde1" "/dev/sde1" "BACKUP" "untrusted"
          "2025-08-01T10:00:00Z" "2025-08-01T10:00:00Z".

Definition app_password : PasswordRow :=
  mkPassword "91c2" "bob" "usb_sde1" "/dev/sde1" "BACKUP" "c2VjcmV0" "bob's hint"
             "2025-08-01T10:00:00Z" "2025-08-01T10:00:00Z".

Definition db_app (uq : bool) : Db :=
  mkDb (Some (mkTable trust_columns uq [app_trust]))
       (Some (mkTable password_columns uq [app_password]))
       (Some (mkTable user_columns false [admin])) [].

(** [users] and [usb_drive_passwords], but no [usb_drive_trust]. *)
Definition db_no_trust : Db :=
  mkDb None
       (Some (mkTable password_columns false [app_password]))
       (Some (mkTable user_columns false [admin])) [].


(** [usb_drive_passwords] and [usb_drive_trust], but no [users]. *)
Definition db_no_users : Db :=
  mkDb (Some (mkTable trust_columns false [app_trust]))
       (Some (mkTable password_columns false [app_password]))
       None [].

(** The same database as [db_no_trust] with another ciphertext. *)
Definition db_no_trust' : Db :=
  mkDb None
       (Some (mkTable password_columns false
          [mkPassword "91c2" "bob" "usb_sde1" "/dev/sde1" "BACKUP" "b3RoZXI=" "bob's hint"
                      "2025-08-01T10:00:00Z" "2025-08-01T10:00:00Z"]))
       (Some (mkTable user_columns false [admin])) [].


End Examples.

Module MoreExamples.

(** Database files at two candidate paths, [/tmp/vault.db] and
    [./vault.db], and a pattern match elsewhere. *)
Definition fs_two_candidates : FS :=
  mkFS "/home/u" "/work"
       (fun p =>
          if String.eqb p "/tmp/vault.db" then Some (File Examples.db_fresh)
          else if String.eqb p "/work/vault.db" then Some (File Examples.db_seeded)
          else None)
       (fun _ => ["/elsewhere/vault.db"]).

(** No candidate path exists; the second pattern, under [~/.config], is the
    first to match. *)
Definition fs_glob_only : FS :=
  mkFS "/home/u" "/work" (fun _ => None)
       (fun pat =>
          if String.eqb pat "/home/u/.config/**/vault.db"
          then ["/home/u/.config/old/vault.db"; "/home/u/.config/new/vault.db"]
          else if String.eqb pat "/work/**/vault.db"
          then ["/work/build/vault.db"]
          else []).

(** Four password records, created in 2021, 2023, 2022 and 2023. *)
Definition four_passwords : list PasswordRow :=
  [ mkPassword "a" "admin" "usb_a" "/dev/a" "A" "x" "ha" "2021" "2021";
    mkPassword "b" "admin" "usb_b" "/dev/b" "B" "x" "hb" "2023" "2023";
    mkPassword "c" "admin" "usb_c" "/dev/c" "C" "x" "hc" "2022" "2022";
    mkPassword "d" "admin" "usb_d" "/dev/d" "D" "x" "hd" "2023" "2023" ].

Definition db_four_passwords : Db :=
  mkDb None (Some (mkTable Examples.password_columns false four_passwords)) None [].

End MoreExamples.

(* ================================================================= *)
(** * Properties *)

(* ================================================================= *)
(** ** The locator *)

Module Locator.

Lemma first_existing_none fs paths :
  (forall p, In p paths -> path_exists fs p = false) ->
  first_existing fs paths = None.
Proof.
  induction paths as [|q paths IH]; intros Habs; simpl.
  - reflexivity.
  - rewrite (Habs q (or_introl eq_refl)).
    apply IH. intros p Hp. apply Habs. right. exact Hp.
Qed.

Lemma first_match_none fs patterns :
  (forall pat, In pat patterns -> glob fs pat = []) ->
  first_match fs patterns = None.
Proof.
  induction patterns as [|q patterns IH]; intros Habs; simpl.
  - reflexivity.
  - rewrite (Habs q (or_introl eq_refl)).
    apply IH. intros p Hp. apply Habs. right. exact Hp.
Qed.

Lemma first_existing_only fs p paths :
  In p paths ->
  path_exists fs p = true ->
  (forall q, In q paths -> path_exists fs q = true -> q = p) ->
  first_existing fs paths = Some p.
Proof.
  induction paths as [|q paths IH]; intros Hin Hp Honly; simpl.
  - destruct Hin.
  - destruct (path_exists fs q) eqn:Hq.
    + f_equal. apply Honly; [left; reflexivity | exact Hq].
    + destruct Hin as [Heq | Hin].
      * subst q. congruence.
      * apply IH; [exact Hin | exact Hp |].
        intros r Hr. apply Honly. right. exact Hr.
Qed.

(** C7. When none of the candidate paths exists and none of the search
    patterns matches anything, [find_database] returns [None]; it is a total
    function into [option], so absence is never an exception. *)
Theorem find_database_absent (fs : FS) :
  (forall p, In p (possible_paths fs) -> path_exists fs p = false) ->
  (forall pat, In pat (search_patterns fs) -> glob fs pat = []) ->
  find_database fs = None.
Proof.
  intros Hpaths Hglob. unfold find_database.
  rewrite (first_existing_none fs _ Hpaths).
  apply first_match_none. exact Hglob.
Qed.

Lemma find_database_absent_witness :
  find_database Examples.fs_empty = None.
Proof.
  apply find_database_absent; intros; reflexivity.
Defined.

(** C8, as amended. When exactly one of the candidate paths exists (as an
    entry of any kind: [Path.exists()] does not ask for a regular file),
    [find_database] returns that path, whatever the search patterns match. *)
Theorem find_database_single_existing (fs : FS) (p : string) :
  In p (possible_paths fs) ->
  path_exists fs p = true ->
  (forall q, In q (possible_paths fs) -> path_exists fs q = true -> q = p) ->
  find_database fs = Some p.
Proof.
  intros Hin Hp Honly. unfold find_database.
  rewrite (first_existing_only fs p _ Hin Hp Honly). reflexivity.
Qed.

Lemma find_database_single_existing_witness :
  find_database Examples.fs_tmp_only = Some "/tmp/vault.db".
Proof.
  apply find_database_single_existing.
  - simpl. tauto.
  - reflexivity.
  - intros q Hq Hex. simpl in Hq.
    repeat (destruct Hq as [Hq | Hq]; [subst q; first [reflexivity | discriminate Hex] |]).
    destruct Hq.
Defined.

(** C8, as stated, fails: with a directory at an earlier candidate path,
    the only candidate that is a file is not the path returned. *)
Lemma find_database_single_file_counterexample :
  let fs := Examples.fs_dir_and_file in
  In "/tmp/vault.db" (possible_paths fs)
  /\ is_file fs "/tmp/vault.db" = true
  /\ (forall q, In q (possible_paths fs) -> is_file fs q = true -> q = "/tmp/vault.db")
  /\ find_database fs = Some "/home/u/.config/zap-vault/vault.db"
  /\ find_database fs <> Some "/tmp/vault.db".
Proof.
  simpl. repeat split.
  - tauto.
  - intros q Hq Hfile.
    repeat (destruct Hq as [Hq | Hq]; [subst q; first [reflexivity | discriminate Hfile] |]).
    destruct Hq.
  - discriminate.
Qed.

End Locator.

(* ================================================================= *)
(** ** The device path *)

Module DevicePath.

Lemma prefix_split pre s :
  prefix pre s = true -> s = pre ++ drop (String.length pre) s.
Proof.
  revert s. induction pre as [|a pre IH]; intros s H; simpl.
  - reflexivity.
  - destruct s as [|b s]; simpl in H; [discriminate|].
    destruct (ascii_dec a b) as [->|]; [|discriminate].
    simpl. f_equal. apply IH. exact H.
Qed.

Lemma replace_no_occurrence s :
  occurs "usb_" s = false -> replace "usb_" "" s = s.
Proof.
  unfold replace. induction s as [|c s IH]; intros H.
  - reflexivity.
  - cbn [occurs] in H. apply orb_false_iff in H. destruct H as [Hp Ho].
    cbn [replace_from]. rewrite Hp. f_equal. apply IH. exact Ho.
Qed.

Lemma replace_from_length skip s :
  String.length (replace_from "usb_" "" skip s) <= String.length s.
Proof.
  revert skip. induction s as [|c s IH]; intros skip.
  - simpl. lia.
  - cbn [replace_from]. destruct skip as [|k].
    + destruct (prefix "usb_" (String c s)).
      * specialize (IH 3). simpl. lia.
      * cbn [String.length]. specialize (IH 0). lia.
    + cbn [String.length]. specialize (IH k). lia.
Qed.

Lemma replace_occurrence_shorter s :
  occurs "usb_" s = true ->
  String.length (replace "usb_" "" s) < String.length s.
Proof.
  unfold replace. induction s as [|c s IH]; intros H.
  - discriminate H.
  - cbn [occurs] in H. cbn [replace_from].
    destruct (prefix "usb_" (String c s)) eqn:Hp.
    + pose proof (replace_from_length 3 s). simpl. lia.
    + simpl in H. cbn [String.length]. specialize (IH H). lia.
Qed.

Lemma replace_prefixed t :
  replace "usb_" "" ("usb_" ++ t) = replace "usb_" "" t.
Proof. destruct t; reflexivity. Qed.

Lemma occurs_cases s : occurs "usb_" s = true \/ occurs "usb_" s = false.
Proof. destruct (occurs "usb_" s); [left | right]; reflexivity. Qed.

Lemma append_cancel (a b c : string) : a ++ b = a ++ c -> b = c.
Proof.
  induction a as [|x a IH]; simpl; intros H.
  - exact H.
  - injection H as H. apply IH. exact H.
Qed.

(** C9, as amended. For every drive identifier the device path of both
    records is ["/dev/"] followed by the identifier with every occurrence of
    ["usb_"] removed ([str.replace]); both records get the same path; and
    that path is ["/dev/"] followed by the identifier with the prefix
    ["usb_"] stripped exactly when ["usb_"] occurs nowhere else in the
    identifier, as for ["usb_sde1"], whose path is ["/dev/sde1"]. *)
Theorem device_path_derivation (test_drive_id test_trust_level now : string) :
  tr_device_path (trust_record test_drive_id test_trust_level now)
    = "/dev/" ++ replace "usb_" "" test_drive_id
  /\ pw_device_path (password_record test_drive_id now)
    = tr_device_path (trust_record test_drive_id test_trust_level now)
  /\ (device_path test_drive_id = "/dev/" ++ strip_prefix "usb_" test_drive_id
      <-> occurs "usb_" (strip_prefix "usb_" test_drive_id) = false)
  /\ device_path "usb_sde1" = "/dev/sde1".
Proof.
  split; [reflexivity|]. split; [reflexivity|]. split; [|reflexivity].
  unfold device_path, strip_prefix.
  destruct (prefix "usb_" test_drive_id) eqn:Hp.
  - apply prefix_split in Hp.
    set (t := drop (String.length "usb_") test_drive_id) in *.
    rewrite Hp at 1. rewrite replace_prefixed. split.
    + intros H. apply append_cancel in H.
      destruct (occurs_cases t) as [Ho | Ho]; [|exact Ho].
      apply replace_occurrence_shorter in Ho. rewrite H in Ho. lia.
    + intros Ho. rewrite (replace_no_occurrence t Ho). reflexivity.
  - split.
    + intros H. apply append_cancel in H.
      destruct (occurs_cases test_drive_id) as [Ho | Ho]; [|exact Ho].
      apply replace_occurrence_shorter in Ho. rewrite H in Ho. lia.
    + intros Ho. rewrite (replace_no_occurrence _ Ho). reflexivity.
Qed.

(** C9, as stated, fails: an identifier with a second ["usb_"] loses it too. *)
Lemma device_path_prefix_counterexample :
  tr_device_path (trust_record "usb_my_usb_stick" "trusted" "2025-09-01T15:54:00Z")
    = "/dev/my_stick"
  /\ "/dev/" ++ strip_prefix "usb_" "usb_my_usb_stick" = "/dev/my_usb_stick"
  /\ tr_device_path (trust_record "usb_my_usb_stick" "trusted" "2025-09-01T15:54:00Z")
     <> "/dev/" ++ strip_prefix "usb_" "usb_my_usb_stick".
Proof.
  split; [reflexivity|]. split; [reflexivity|]. discriminate.
Qed.

End DevicePath.

(* ================================================================= *)
(** ** INSERT OR REPLACE on a table *)

Module Upsert.

Local Open Scope list_scope.

Section Generic.

Context {R : Type} (conflict : R -> R -> bool).

Lemma insert_or_replace_length (new : R) (rs : list R) :
  length (insert_or_replace conflict new rs) + length (filter (conflict new) rs)
  = length rs + 1.
Proof.
  unfold insert_or_replace. rewrite length_app. simpl.
  pose proof (filter_length (conflict new) rs). lia.
Qed.

(** A selection that the new row satisfies returns the surviving old rows
    it selects, then the new row. *)
Lemma filter_insert_or_replace (sel : R -> bool) (new : R) (rs : list R) :
  sel new = true ->
  filter sel (insert_or_replace conflict new rs)
  = filter (fun r => sel r && negb (conflict new r)) rs ++ [new].
Proof.
  intros Hsel. unfold insert_or_replace. rewrite filter_app. simpl. rewrite Hsel.
  f_equal. induction rs as [|r rs IH]; simpl.
  - reflexivity.
  - destruct (conflict new r); simpl.
    + rewrite andb_false_r. exact IH.
    + rewrite andb_true_r. destruct (sel r); [f_equal|]; exact IH.
Qed.

End Generic.

Lemma filter_nothing {R : Type} (f : R -> bool) (rs : list R) :
  (forall r, In r rs -> f r = false) -> filter f rs = [].
Proof.
  induction rs as [|r rs IH]; intros H; simpl.
  - reflexivity.
  - rewrite (H r (or_introl eq_refl)). apply IH. intros x Hx. apply H. right. exact Hx.
Qed.

Lemma NoDup_map_filter {R K : Type} (key : R -> K) (f : R -> bool) (rs : list R) :
  NoDup (map key rs) -> NoDup (map key (filter f rs)).
Proof.
  induction rs as [|r rs IH]; simpl; intros H.
  - constructor.
  - inversion H as [|? ? Hnotin Hrest]; subst.
    destruct (f r); simpl; [constructor|]; try (apply IH; exact Hrest).
    intros Hin. apply Hnotin. apply in_map_iff in Hin. destruct Hin as [x [Hx Hin]].
    apply in_map_iff. exists x. split; [exact Hx|]. apply filter_In in Hin. tauto.
Qed.

Lemma NoDup_snoc {K : Type} (l : list K) (k : K) :
  NoDup l -> ~ In k l -> NoDup (l ++ [k]).
Proof.
  induction l as [|x l IH]; simpl; intros Hl Hk.
  - constructor; [tauto | constructor].
  - inversion Hl as [|? ? Hx Hrest]; subst. constructor.
    + intros Hin. apply in_app_or in Hin. simpl in Hin. destruct Hin as [Hin | [Heq | []]].
      * tauto.
      * subst. tauto.
    + apply IH; tauto.
Qed.

(** Re-inserting under the same id leaves one row with that id, the last
    one written. *)
Lemma upsert_twice_same_id uq (r1 r2 : TrustRow) (rs : list TrustRow) :
  tr_id r1 = tr_id r2 ->
  filter (fun r => String.eqb (tr_id r) (tr_id r2))
         (insert_or_replace (trust_conflict uq) r2
            (insert_or_replace (trust_conflict uq) r1 rs))
  = [r2].
Proof.
  intros Hid.
  rewrite filter_insert_or_replace by apply String.eqb_refl.
  rewrite filter_nothing; [reflexivity|].
  intros r _. unfold trust_conflict.
  destruct (String.eqb (tr_id r) (tr_id r2)); reflexivity.
Qed.

(** INSERT OR REPLACE keeps [(user_id, drive_id)] unique when the table
    declares it unique, or when no row under another id has the new row's
    pair. *)
Lemma upsert_keeps_pairs_unique uq (new : TrustRow) (rs : list TrustRow) :
  NoDup (map trust_pair rs) ->
  (uq = true \/
   forall r, In r rs -> trust_pair r = trust_pair new -> tr_id r = tr_id new) ->
  NoDup (map trust_pair (insert_or_replace (trust_conflict uq) new rs)).
Proof.
  intros Hnd Hside. unfold insert_or_replace. rewrite map_app. simpl.
  apply NoDup_snoc.
  - apply NoDup_map_filter. exact Hnd.
  - intros Hin. apply in_map_iff in Hin. destruct Hin as [r [Hpair Hin]].
    apply filter_In in Hin. destruct Hin as [Hin Hkeep].
    apply negb_true_iff in Hkeep. unfold trust_conflict in Hkeep.
    apply orb_false_iff in Hkeep. destruct Hkeep as [Hid Huq].
    unfold trust_pair in Hpair. injection Hpair as Hu Hd.
    destruct Hside as [-> | Hside].
    + simpl in Huq. rewrite Hu, Hd, !String.eqb_refl in Huq. discriminate.
    + rewrite (Hside r Hin) in Hid.
      * rewrite String.eqb_refl in Hid. discriminate.
      * unfold trust_pair. congruence.
Qed.

End Upsert.

(* ================================================================= *)
(** ** The upsert verifier *)

Module Verifier.

Local Open Scope list_scope.

(** Running a script symbolically: unfold the script and the monad, then
    split on whatever the run depends on (an injected fault, a table that
    may be missing, the first row of a selection). *)
Ltac unfold_script :=
  unfold test_trust_levels, test_trust_levels_with, check_database, finish,
    try_finally, try_except, verify, insert_trust, verify_insertion,
    insert_password, check_both_tables, print_item, fetchone_0, item, positive,
    bind, ret, raise, execute, commit, close, print, record_call, opened.

Ltac stuck_match :=
  match goal with
  | |- context [match ?f ?n with Some _ => _ | None => _ end] =>
      is_var f; destruct (f n) eqn:?
  | |- context [with_table _ ?o _] => is_var o; destruct o
  | |- context [fetchone (map trust_values ?l)] => destruct l eqn:?
  end.

Ltac run_script := unfold_script; cbn; repeat (stuck_match; cbn).

Lemma vault_db_found fs db :
  entry fs (vault_db_path fs) = Some (File db) ->
  path_exists fs (vault_db_path fs) = true
  /\ connect fs (vault_db_path fs) = inr (mkConn db db true).
Proof. intros He. unfold path_exists, connect. rewrite He. split; reflexivity. Qed.

(** Whatever fails, [test_trust_levels] lets no exception escape and ends
    with the connection closed; the file then holds the original content,
    or that content with the trust record written, or with both records
    written. *)
Lemma verifier_final_db faults d lvl now fs db :
  entry fs (vault_db_path fs) = Some (File db) ->
  let run := test_trust_levels_with faults d lvl now fs in
  exists c,
    connection run = Some c
    /\ raised run = None
    /\ is_open c = false
    /\ view c = durable c
    /\ (durable c = db
        \/ exists db1,
             run_stmt (UpsertTrust (trust_record d lvl now)) db = inr ([], db1)
             /\ (durable c = db1
                 \/ exists db2,
                      run_stmt (UpsertPassword (password_record d now)) db1 = inr ([], db2)
                      /\ durable c = db2)).
Proof.
  intros He run. subst run. destruct (vault_db_found fs db He) as [Hex Hco].
  unfold test_trust_levels_with. rewrite Hex, Hco. cbn [negb].
  destruct db as [ot op ou oo].
  run_script;
    (eexists; split; [reflexivity|]; split; [reflexivity|]; split; [reflexivity|];
     split; [reflexivity|]);
    first [ left; reflexivity
          | right; eexists; split; [reflexivity|];
            first [ left; reflexivity
                  | right; eexists; split; reflexivity ] ].
Qed.




(** C2, as amended. On every database with the [usb_drive_trust] table,
    inserting the trust record and inserting it again with another
    [updated_at] leaves exactly one row with the id ["trust_" ++ d], carrying
    the second [updated_at].  After a run of the verifier, at most one trust
    record exists per [(user_id, drive_id)] pair provided that this held
    before the run and that the table declares the pair unique or held no
    record of [("admin", d)] under another id. *)
Theorem trust_upsert_unique (faults : nat -> option string)
    (d lvl now1 now2 : string) (fs : FS) (db : Db) (t : Table TrustRow) :
  usb_drive_trust db = Some t ->
  (exists st' t',
      (insert_trust no_faults d lvl now1 ;; insert_trust no_faults d lvl now2)
        (opened db) = (inr tt, st')
      /\ usb_drive_trust (durable (conn st')) = Some t'
      /\ filter (fun r => String.eqb (tr_id r) ("trust_" ++ d)%string) (rows t')
         = [trust_record d lvl now2]
      /\ tr_updated_at (trust_record d lvl now2) = now2)
  /\ (entry fs (vault_db_path fs) = Some (File db) ->
      NoDup (map trust_pair (rows t)) ->
      (unique_user_drive t = true
       \/ forall r, In r (rows t) -> trust_pair r = ("admin", d) ->
                    tr_id r = ("trust_" ++ d)%string) ->
      exists c t',
        connection (test_trust_levels_with faults d lvl now2 fs) = Some c
        /\ usb_drive_trust (durable c) = Some t'
        /\ NoDup (map trust_pair (rows t'))).
Proof.
  intros Ht. split.
  - destruct db as [ot op ou oo]. simpl in Ht. subst ot.
    eexists. eexists. split; [run_script; reflexivity|].
    split; [reflexivity|]. split; [|reflexivity].
    exact (Upsert.upsert_twice_same_id (unique_user_drive t)
             (trust_record d lvl now1) (trust_record d lvl now2) (rows t) eq_refl).
  - intros He Hnd Hside.
    destruct (verifier_final_db faults d lvl now2 fs db He)
      as [c [Hc [_ [_ [_ Hdb]]]]].
    assert (Hup : NoDup (map trust_pair
                     (rows (upsert_trust (trust_record d lvl now2) t)))).
    { apply Upsert.upsert_keeps_pairs_unique; [exact Hnd|].
      destruct Hside as [Huq | Hother]; [left; exact Huq | right; exact Hother]. }
    destruct db as [ot op ou oo]. simpl in Ht. subst ot.
    exists c.
    destruct Hdb as [Hd | [db1 [H1 [Hd | [db2 [H2 Hd]]]]]].
    + exists t. rewrite Hd. repeat split; [exact Hc | exact Hnd].
    + cbn in H1. injection H1 as <-. eexists. rewrite Hd.
      repeat split; [exact Hc | exact Hup].
    + cbn in H1. injection H1 as <-. cbn in H2.
      destruct op as [p|]; cbn in H2; [|discriminate].
      injection H2 as <-. eexists. rewrite Hd.
      repeat split; [exact Hc | exact Hup].
Qed.

Lemma trust_upsert_unique_witness :
  exists c t',
    connection (test_trust_levels_with no_faults "usb_sde1" "trusted"
                  Examples.later (Examples.fs_with Examples.db_seeded)) = Some c
    /\ usb_drive_trust (durable c) = Some t'
    /\ NoDup (map trust_pair (rows t')).
Proof.
  refine (proj2 (trust_upsert_unique no_faults "usb_sde1" "trusted"
                   Examples.now Examples.later
                   (Examples.fs_with Examples.db_seeded) Examples.db_seeded
                   (mkTable Examples.trust_columns false
                      [trust_record "usb_sde1" "trusted" Examples.now])
                   eq_refl) eq_refl _ _).
  - simpl. constructor; [simpl; tauto | constructor].
  - right. intros r [<- | []] _. reflexivity.
Defined.

(** C2, as stated, fails: the table declares no uniqueness and already
    holds a trust record of [("admin", "usb_sde1")] under another id; the
    pairs were unique before the run and are not after it. *)
Lemma trust_pair_counterexample :
  let fs := Examples.fs_with (Examples.db_app false) in
  let before := [Examples.app_trust] in
  let after := [Examples.app_trust; trust_record "usb_sde1" "trusted" Examples.now] in
  usb_drive_trust (Examples.db_app false)
    = Some (mkTable Examples.trust_columns false before)
  /\ NoDup (map trust_pair before)
  /\ option_map (fun c => usb_drive_trust (durable c))
                (connection (test_trust_levels no_faults fs))
     = Some (Some (mkTable Examples.trust_columns false after))
  /\ map trust_pair after = [("admin", "usb_sde1"); ("admin", "usb_sde1")]
  /\ ~ NoDup (map trust_pair after).
Proof.
  cbv zeta. split; [reflexivity|]. split.
  - simpl. constructor; [simpl; tauto | constructor].
  - split; [reflexivity|]. split; [reflexivity|].
    intros H. inversion H as [|x l Hnotin _]; subst. apply Hnotin. left. reflexivity.
Qed.

(** C4, as amended. When both tables exist and nothing fails, the verifier
    prints, for each table, the count before the run, minus the number of
    rows the new record replaces (the rows with its id and, where the pair
    is declared unique, with its [(user_id, drive_id)]), plus one: the count
    grows by exactly one when no such row exists, and stays the same when
    one does, as on a second run. *)
Theorem verifier_counts (d lvl now : string) (fs : FS) (db : Db)
    (t : Table TrustRow) (p : Table PasswordRow) :
  entry fs (vault_db_path fs) = Some (File db) ->
  usb_drive_trust db = Some t ->
  usb_drive_passwords db = Some p ->
  let replaced_t :=
    filter (trust_conflict (unique_user_drive t) (trust_record d lvl now)) (rows t) in
  let replaced_p :=
    filter (password_conflict (unique_user_drive p) (password_record d now)) (rows p) in
  exists n_t n_p line,
    printed (test_trust_levels_with no_faults d lvl now fs)
    = [ [Lit "✅ Successfully inserted test trust level"];
        line;
        [Lit "✅ Successfully inserted test password"];
        [Lit "📊 Database status:"];
        [Lit "  - Trust entries: "; Val (VInt n_t)];
        [Lit "  - Password entries: "; Val (VInt n_p)] ]
    /\ n_t + length replaced_t = length (rows t) + 1
    /\ n_p + length replaced_p = length (rows p) + 1
    /\ (replaced_t = [] -> n_t = length (rows t) + 1)
    /\ (replaced_p = [] -> n_p = length (rows p) + 1)
    /\ (length replaced_t = 1 -> n_t = length (rows t))
    /\ (length replaced_p = 1 -> n_p = length (rows p)).
Proof.
  intros He Ht Hp replaced_t replaced_p.
  destruct (vault_db_found fs db He) as [Hex Hco].
  pose proof (Upsert.insert_or_replace_length
                (trust_conflict (unique_user_drive t)) (trust_record d lvl now) (rows t))
    as Hlen_t.
  pose proof (Upsert.insert_or_replace_length
                (password_conflict (unique_user_drive p)) (password_record d now) (rows p))
    as Hlen_p.
  fold replaced_t in Hlen_t. fold replaced_p in Hlen_p.
  exists (length (insert_or_replace (trust_conflict (unique_user_drive t))
                    (trust_record d lvl now) (rows t))).
  exists (length (insert_or_replace (password_conflict (unique_user_drive p))
                    (password_record d now) (rows p))).
  assert (Hprinted : exists line,
    printed (test_trust_levels_with no_faults d lvl now fs)
    = [ [Lit "✅ Successfully inserted test trust level"];
        line;
        [Lit "✅ Successfully inserted test password"];
        [Lit "📊 Database status:"];
        [Lit "  - Trust entries: ";
         Val (VInt (length (insert_or_replace (trust_conflict (unique_user_drive t))
                              (trust_record d lvl now) (rows t))))];
        [Lit "  - Password entries: ";
         Val (VInt (length (insert_or_replace (password_conflict (unique_user_drive p))
                              (password_record d now) (rows p))))] ]).
  { unfold test_trust_levels_with. rewrite Hex, Hco. cbn [negb].
    destruct db as [ot op ou oo]. simpl in Ht, Hp. subst ot op.
    run_script; eexists; reflexivity. }
  destruct Hprinted as [line Hprinted]. exists line.
  split; [exact Hprinted|].
  split; [exact Hlen_t|]. split; [exact Hlen_p|].
  repeat split; intros H; rewrite ?H in *; simpl in *; lia.
Qed.

Lemma verifier_counts_witness :
  exists n_t n_p line,
    printed (test_trust_levels_with no_faults "usb_sde1" "trusted" Examples.now
               (Examples.fs_with Examples.db_fresh))
    = [ [Lit "✅ Successfully inserted test trust level"];
        line;
        [Lit "✅ Successfully inserted test password"];
        [Lit "📊 Database status:"];
        [Lit "  - Trust entries: "; Val (VInt n_t)];
        [Lit "  - Password entries: "; Val (VInt n_p)] ]
    /\ n_t + 0 = 0 + 1
    /\ n_p + 0 = 0 + 1.
Proof.
  destruct (verifier_counts "usb_sde1" "trusted" Examples.now
              (Examples.fs_with Examples.db_fresh) Examples.db_fresh
              (mkTable Examples.trust_columns false [])
              (mkTable Examples.password_columns false [])
              eq_refl eq_refl eq_refl)
    as [n_t [n_p [line [Hprinted [Ht [Hp _]]]]]].
  exists n_t, n_p, line. split; [exact Hprinted|]. split; [exact Ht | exact Hp].
Defined.

(** C4, as stated, fails: on a database where the verifier has already run,
    each table holds one row before the run and the run reports one row. *)
Lemma verifier_counts_counterexample :
  let db := Examples.db_seeded in
  run_stmt CountTrust db = inr ([[VInt 1]], db)
  /\ run_stmt CountPasswords db = inr ([[VInt 1]], db)
  /\ printed (test_trust_levels no_faults (Examples.fs_with db))
     = [ [Lit "✅ Successfully inserted test trust level"];
         [Lit "✅ Trust level entry found: ";
          Row (trust_values (trust_record "usb_sde1" "trusted" Examples.now))];
         [Lit "✅ Successfully inserted test password"];
         [Lit "📊 Database status:"];
         [Lit "  - Trust entries: "; Val (VInt 1)];
         [Lit "  - Password entries: "; Val (VInt 1)] ].
Proof. cbv zeta. repeat split; reflexivity. Qed.






(** The verifier closes its connection on every outcome. *)
Lemma test_trust_levels_closes faults fs c :
  connection (test_trust_levels faults fs) = Some c -> is_open c = false.
Proof.
  unfold test_trust_levels, test_trust_levels_with, connect, path_exists.
  destruct (entry fs (vault_db_path fs)) as [[|db]|] eqn:He; cbn [negb];
    try discriminate.
  intros Hc.
  destruct (verifier_final_db faults "usb_sde1" "trusted" "2025-09-01T15:54:00Z"
              fs db He) as [c' [Hc' [_ [Ho _]]]].
  unfold test_trust_levels_with, connect, path_exists in Hc'.
  rewrite He in Hc'. cbn [negb] in Hc'. congruence.
Qed.

End Verifier.

(* ================================================================= *)
(** ** The inspector *)

Module Inspector.

Local Open Scope list_scope.

(** *** The report on a database without faults *)









(** *** Databases that differ in ciphertext only *)

Lemma recent_values_redact r : recent_values (redact r) = recent_values r.
Proof. reflexivity. Qed.

Lemma insert_desc_redact x l :
  map redact (insert_desc x l) = insert_desc (redact x) (map redact l).
Proof.
  induction l as [|y l IH]; simpl.
  - reflexivity.
  - destruct (String.ltb (pw_created_at x) (pw_created_at y)); simpl.
    + rewrite IH. reflexivity.
    + reflexivity.
Qed.

Lemma order_redact l :
  map redact (order_by_created_at_desc l) = order_by_created_at_desc (map redact l).
Proof.
  induction l as [|x l IH]; simpl.
  - reflexivity.
  - rewrite insert_desc_redact, IH. reflexivity.
Qed.

Lemma recent_of_redacted l :
  map recent_values (firstn 5 (order_by_created_at_desc l))
  = map recent_values (firstn 5 (order_by_created_at_desc (map redact l))).
Proof.
  rewrite <- order_redact, firstn_map, map_map.
  apply map_ext. intros r. symmetry. apply recent_values_redact.
Qed.

Lemma same_rows_recent l1 l2 :
  map redact l1 = map redact l2 ->
  map recent_values (firstn 5 (order_by_created_at_desc l1))
  = map recent_values (firstn 5 (order_by_created_at_desc l2)).
Proof.
  intros H. rewrite (recent_of_redacted l1), (recent_of_redacted l2), H. reflexivity.
Qed.

Lemma same_rows_length l1 l2 :
  map redact l1 = map redact l2 -> length l1 = length l2.
Proof.
  intros H. rewrite <- (length_map redact l1), <- (length_map redact l2), H. reflexivity.
Qed.

Lemma same_table_names db1 db2 :
  same_but_ciphertext db1 db2 -> table_names db1 = table_names db2.
Proof.
  intros [Ht [Hu [Ho Hp]]]. unfold table_names. rewrite Ht, Hu, Ho.
  destruct (usb_drive_passwords db1), (usb_drive_passwords db2); simpl in *; tauto.
Qed.

(** An inspector statement returns the same rows on both databases and
    changes neither. *)
Lemma run_stmt_same s db1 db2 :
  inspector_statement s = true ->
  same_but_ciphertext db1 db2 ->
  match run_stmt s db1, run_stmt s db2 with
  | inl e1, inl e2 => e1 = e2
  | inr (res1, db1'), inr (res2, db2') => res1 = res2 /\ db1' = db1 /\ db2' = db2
  | _, _ => False
  end.
Proof.
  intros Hs Hsame. pose proof (same_table_names _ _ Hsame) as Hnames.
  destruct Hsame as [Ht [Hu [Ho Hp]]].
  destruct (usb_drive_passwords db1) as [p1|] eqn:Hp1,
           (usb_drive_passwords db2) as [p2|] eqn:Hp2; try contradiction.
  - destruct Hp as [Hc [_ Hrows]].
    destruct s; try discriminate Hs; cbn; unfold with_table;
      rewrite <- ?Hnames, <- ?Hu, ?Hp1, ?Hp2;
      try (destruct (users db1); repeat split; reflexivity);
      repeat split.
    + rewrite Hc. reflexivity.
    + rewrite (same_rows_length _ _ Hrows). reflexivity.
    + apply same_rows_recent. exact Hrows.
  - destruct s; try discriminate Hs; cbn; unfold with_table;
      rewrite <- ?Hnames, <- ?Hu, ?Hp1, ?Hp2;
      try (destruct (users db1); repeat split; reflexivity);
      repeat split.
Qed.

Section Relational.

Variable faults : nat -> option string.

(** Two states of the script that differ in ciphertext values only. *)
Definition sim (st1 st2 : State) : Prop :=
  calls st1 = calls st2
  /\ out st1 = out st2
  /\ is_open (conn st1) = is_open (conn st2)
  /\ same_but_ciphertext (view (conn st1)) (view (conn st2))
  /\ same_but_ciphertext (durable (conn st1)) (durable (conn st2)).

(** [m] cannot tell such states apart. *)
Definition blind {A : Type} (m : M A) : Prop :=
  forall st1 st2, sim st1 st2 ->
    fst (m st1) = fst (m st2) /\ sim (snd (m st1)) (snd (m st2)).

Lemma sim_intro st1 st2 :
  calls st1 = calls st2 -> out st1 = out st2 ->
  is_open (conn st1) = is_open (conn st2) ->
  same_but_ciphertext (view (conn st1)) (view (conn st2)) ->
  same_but_ciphertext (durable (conn st1)) (durable (conn st2)) ->
  sim st1 st2.
Proof. unfold sim. tauto. Qed.

Ltac sim_solve :=
  apply sim_intro; cbn [snd conn calls out is_open view durable];
  first [assumption | reflexivity | congruence].

Lemma blind_ret {A} (a : A) : blind (ret a).
Proof. intros st1 st2 H. split; [reflexivity | exact H]. Qed.

Lemma blind_raise {A} (e : Exn) : blind (@raise A e).
Proof. intros st1 st2 H. split; [reflexivity | exact H]. Qed.

Lemma blind_print l : blind (print l).
Proof.
  intros st1 st2 [Hc [Ho [Hop [Hv Hd]]]]. split; [reflexivity|].
  unfold print. sim_solve.
Qed.

Lemma blind_bind {A B} (m : M A) (k : A -> M B) :
  blind m -> (forall a, blind (k a)) -> blind (bind m k).
Proof.
  intros Hm Hk st1 st2 H. unfold bind.
  destruct (Hm st1 st2 H) as [Hr Hs].
  destruct (m st1) as [[e1|a1] st1'], (m st2) as [[e2|a2] st2']; cbn in *;
    try discriminate Hr.
  - injection Hr as <-. split; [reflexivity | exact Hs].
  - injection Hr as <-. apply Hk. exact Hs.
Qed.

Lemma blind_try_except {A} (body : M A) (handler : Exn -> M A) :
  blind body -> (forall e, blind (handler e)) -> blind (try_except body handler).
Proof.
  intros Hm Hk st1 st2 H. unfold try_except.
  destruct (Hm st1 st2 H) as [Hr Hs].
  destruct (body st1) as [[e1|a1] st1'], (body st2) as [[e2|a2] st2']; cbn in *;
    try discriminate Hr.
  - injection Hr as <-. apply Hk. exact Hs.
  - injection Hr as <-. split; [reflexivity | exact Hs].
Qed.

Lemma blind_for_each {A} (l : list A) (body : A -> M unit) :
  (forall x, blind (body x)) -> blind (for_each l body).
Proof.
  intros Hb. induction l as [|x l IH]; simpl.
  - apply blind_ret.
  - apply blind_bind; [apply Hb | intros _; exact IH].
Qed.

Lemma blind_close : blind close.
Proof.
  intros st1 st2 [Hc [Ho [Hop [Hv Hd]]]]. split; [reflexivity|].
  unfold close. sim_solve.
Qed.

Lemma blind_execute s : inspector_statement s = true -> blind (execute faults s).
Proof.
  intros Hs st1 st2 [Hc [Ho [Hop [Hv Hd]]]]. unfold execute, record_call.
  rewrite <- Hop, <- Hc.
  destruct (is_open (conn st1)) eqn:Hop1; cbn [negb].
  2:{ split; [reflexivity|]. sim_solve. }
  destruct (faults (length (calls st1))).
  { split; [reflexivity|]. sim_solve. }
  pose proof (run_stmt_same s _ _ Hs Hv) as Hrun.
  destruct (run_stmt s (view (conn st1))) as [e1|[res1 db1']],
           (run_stmt s (view (conn st2))) as [e2|[res2 db2']];
    try contradiction.
  - subst e2. split; [reflexivity|]. sim_solve.
  - destruct Hrun as [-> [-> ->]]. split; [reflexivity|]. sim_solve.
Qed.

Ltac blind_step :=
  first [ apply blind_ret | apply blind_raise | apply blind_print | apply blind_close
        | apply blind_execute; reflexivity
        | apply blind_for_each; intros ?
        | apply blind_bind; [|intros ?]
        | match goal with
          | |- blind (if ?b then _ else _) => destruct b
          | |- blind (match ?x with _ => _ end) => destruct x
          end ].

Lemma blind_inspect : blind (inspect faults).
Proof.
  unfold inspect, inspect_passwords, inspect_users, print_item, fetchone_0, item,
    positive.
  repeat blind_step.
Qed.

End Relational.

(** *** Theorems *)

Lemma check_database_at faults fs path db :
  find_database fs = Some path ->
  entry fs path = Some (File db) ->
  check_database faults fs
  = finish (try_except (inspect faults) (fun e => print (database_error e))
              (mkState (mkConn db db true) []
                       [[Lit "✅ Database found at: "; Val (VText path)]])).
Proof.
  intros Hfind He. unfold check_database, connect. rewrite Hfind, He. reflexivity.
Qed.




(** C6 fails for the inspector: [usb_drive_passwords] and [usb_drive_trust]
    exist and [users] does not.  The count on [users] raises, the handler
    reports it, and [check_database] returns with its connection open:
    [conn.close()] is the last statement of the [try] block and there is no
    [finally]. *)
Theorem check_database_leaves_connection_open :
  let run := check_database no_faults (Examples.fs_with Examples.db_no_users) in
  raised run = None
  /\ last (printed run) [] = database_error (no_such_table "users")
  /\ last (calls_made run) Commit = Execute CountUsers
  /\ option_map is_open (connection run) = Some true.
Proof. cbv zeta. repeat split; reflexivity. Qed.

Lemma same_path_exists fs1 fs2 p :
  same_fs_but_ciphertext fs1 fs2 -> path_exists fs1 p = path_exists fs2 p.
Proof.
  intros [_ [_ [_ He]]]. specialize (He p). unfold path_exists.
  destruct (entry fs1 p) as [[|]|], (entry fs2 p) as [[|]|]; simpl in He;
    first [reflexivity | contradiction].
Qed.

Lemma same_find_database fs1 fs2 :
  same_fs_but_ciphertext fs1 fs2 -> find_database fs1 = find_database fs2.
Proof.
  intros Hsame. pose proof (same_path_exists fs1 fs2) as Hex.
  destruct Hsame as [Hh [Hc [Hg He]]].
  unfold find_database, possible_paths, search_patterns. rewrite <- Hh, <- Hc.
  cbn [first_existing first_match]. rewrite <- !Hg.
  rewrite <- !Hex by (repeat split; assumption). reflexivity.
Qed.

(** C10. Two filesystems that differ only in the values of
    [encrypted_password] give the same run of the inspector, whatever else
    fails: the same lines printed and the same calls made.  The query of the
    recent entries returns the same tuple for a record whatever its
    ciphertext. *)
Theorem report_independent_of_ciphertext (faults : nat -> option string)
    (fs1 fs2 : FS) :
  same_fs_but_ciphertext fs1 fs2 ->
  printed (check_database faults fs1) = printed (check_database faults fs2)
  /\ calls_made (check_database faults fs1) = calls_made (check_database faults fs2)
  /\ raised (check_database faults fs1) = raised (check_database faults fs2)
  /\ forall r : PasswordRow, recent_values r = recent_values (redact r).
Proof.
  intros Hsame.
  cut (printed (check_database faults fs1) = printed (check_database faults fs2)
       /\ calls_made (check_database faults fs1) = calls_made (check_database faults fs2)
       /\ raised (check_database faults fs1) = raised (check_database faults fs2)).
  { intros [Hp [Hc Hr]]. split; [exact Hp|]. split; [exact Hc|].
    split; [exact Hr | reflexivity]. }
  unfold check_database. rewrite <- (same_find_database fs1 fs2 Hsame).
  destruct (find_database fs1) as [path|]; [|repeat split; reflexivity].
  destruct Hsame as [_ [_ [_ He]]]. specialize (He path). unfold connect.
  destruct (entry fs1 path) as [[|db1]|], (entry fs2 path) as [[|db2]|];
    simpl in He; try contradiction; try (repeat split; reflexivity).
  assert (Hsim : sim (mkState (mkConn db1 db1 true) []
                        [[Lit "✅ Database found at: "; Val (VText path)]])
                     (mkState (mkConn db2 db2 true) []
                        [[Lit "✅ Database found at: "; Val (VText path)]])).
  { apply sim_intro; first [reflexivity | exact He]. }
  destruct (blind_try_except (inspect faults) (fun e => print (database_error e))
              (blind_inspect faults) (fun e => blind_print _) _ _ Hsim)
    as [Hr [Hc [Ho _]]].
  unfold finish. cbn [printed calls_made raised]. rewrite Hr, Hc, Ho.
  repeat split; reflexivity.
Qed.

Lemma report_independent_of_ciphertext_witness :
  printed (check_database no_faults (Examples.fs_with Examples.db_no_trust))
  = printed (check_database no_faults (Examples.fs_with Examples.db_no_trust')).
Proof.
  refine (proj1 (report_independent_of_ciphertext no_faults
                   (Examples.fs_with Examples.db_no_trust)
                   (Examples.fs_with Examples.db_no_trust') _)).
  repeat split. intros p. simpl.
  destruct (String.eqb p Examples.vault_path); simpl; repeat split.
Defined.

End Inspector.

(* ================================================================= *)
(** * Further properties of the scripts *)

(* ================================================================= *)
(** ** The order in which the locator looks *)

Module LocatorOrder.

Local Open Scope list_scope.

Lemma first_existing_app fs earlier p later :
  (forall q, In q earlier -> path_exists fs q = false) ->
  path_exists fs p = true ->
  first_existing fs (earlier ++ p :: later) = Some p.
Proof.
  intros Hearlier Hp. induction earlier as [|q earlier IH]; simpl.
  - rewrite Hp. reflexivity.
  - rewrite (Hearlier q (or_introl eq_refl)). apply IH.
    intros r Hr. apply Hearlier. right. exact Hr.
Qed.

Lemma first_match_app fs earlier pat later m ms :
  (forall q, In q earlier -> glob fs q = []) ->
  glob fs pat = m :: ms ->
  first_match fs (earlier ++ pat :: later) = Some m.
Proof.
  intros Hearlier Hp. induction earlier as [|q earlier IH]; simpl.
  - rewrite Hp. reflexivity.
  - rewrite (Hearlier q (or_introl eq_refl)). apply IH.
    intros r Hr. apply Hearlier. right. exact Hr.
Qed.

Lemma first_existing_some fs paths p :
  first_existing fs paths = Some p -> In p paths /\ path_exists fs p = true.
Proof.
  induction paths as [|q paths IH]; simpl; intros H.
  - discriminate H.
  - destruct (path_exists fs q) eqn:Hq.
    + injection H as <-. split; [left; reflexivity | exact Hq].
    + destruct (IH H) as [Hin Hex]. split; [right; exact Hin | exact Hex].
Qed.

Lemma first_match_some fs patterns p :
  first_match fs patterns = Some p ->
  exists pat, In pat patterns /\ hd_error (glob fs pat) = Some p.
Proof.
  induction patterns as [|q patterns IH]; simpl; intros H.
  - discriminate H.
  - destruct (glob fs q) as [|m ms] eqn:Hq.
    + destruct (IH H) as [pat [Hin Hhd]]. exists pat. split; [right; exact Hin | exact Hhd].
    + injection H as <-. exists q. split; [left; reflexivity|]. rewrite Hq. reflexivity.
Qed.

Lemma first_existing_none_inv fs paths :
  first_existing fs paths = None ->
  forall p, In p paths -> path_exists fs p = false.
Proof.
  induction paths as [|q paths IH]; simpl; intros H p Hp.
  - destruct Hp.
  - destruct (path_exists fs q) eqn:Hq; [discriminate H|].
    destruct Hp as [<- | Hp]; [exact Hq | apply IH; assumption].
Qed.

Lemma first_match_none_inv fs patterns :
  first_match fs patterns = None ->
  forall pat, In pat patterns -> glob fs pat = [].
Proof.
  induction patterns as [|q patterns IH]; simpl; intros H p Hp.
  - destruct Hp.
  - destruct (glob fs q) as [|m ms] eqn:Hq; [|discriminate H].
    destruct Hp as [<- | Hp]; [exact Hq | apply IH; assumption].
Qed.

(** X1. The candidate paths are tried in the order of the list: the first
    one that exists is returned, whatever exists at later candidates and
    whatever the search patterns match. *)
Theorem find_database_first_candidate (fs : FS) (earlier later : list string)
    (p : string) :
  possible_paths fs = earlier ++ p :: later ->
  (forall q, In q earlier -> path_exists fs q = false) ->
  path_exists fs p = true ->
  find_database fs = Some p.
Proof.
  intros Hsplit Hearlier Hp. unfold find_database. rewrite Hsplit.
  rewrite (first_existing_app fs earlier p later Hearlier Hp). reflexivity.
Qed.

(** X2. When no candidate path exists, the search patterns are tried in
    the order of the list, and the first match of the first pattern that
    matches anything is returned. *)
Theorem find_database_falls_back (fs : FS) (earlier later : list string)
    (pat m : string) (ms : list string) :
  (forall q, In q (possible_paths fs) -> path_exists fs q = false) ->
  search_patterns fs = earlier ++ pat :: later ->
  (forall q, In q earlier -> glob fs q = []) ->
  glob fs pat = m :: ms ->
  find_database fs = Some m.
Proof.
  intros Hnone Hsplit Hearlier Hpat. unfold find_database.
  rewrite (Locator.first_existing_none fs _ Hnone). rewrite Hsplit.
  apply (first_match_app fs earlier pat later m ms Hearlier Hpat).
Qed.

(** X3. A path returned by the locator is a candidate path that exists, or
    the first match of one of the search patterns; and the locator returns
    [None] only when no candidate exists and no pattern matches. *)
Theorem find_database_result (fs : FS) :
  (forall p, find_database fs = Some p ->
     (In p (possible_paths fs) /\ path_exists fs p = true)
     \/ exists pat, In pat (search_patterns fs) /\ hd_error (glob fs pat) = Some p)
  /\ (find_database fs = None <->
      (forall p, In p (possible_paths fs) -> path_exists fs p = false)
      /\ (forall pat, In pat (search_patterns fs) -> glob fs pat = [])).
Proof.
  split.
  - intros p. unfold find_database.
    destruct (first_existing fs (possible_paths fs)) as [q|] eqn:Hq.
    + intros H. injection H as <-. left. apply first_existing_some. exact Hq.
    + intros H. right. apply first_match_some. exact H.
  - split.
    + unfold find_database.
      destruct (first_existing fs (possible_paths fs)) as [q|] eqn:Hq;
        [discriminate|].
      intros H. split.
      * apply first_existing_none_inv. exact Hq.
      * apply first_match_none_inv. exact H.
    + intros [Hp Hg]. unfold find_database.
      rewrite (Locator.first_existing_none fs _ Hp).
      apply Locator.first_match_none. exact Hg.
Qed.

Lemma find_database_first_candidate_witness :
  find_database MoreExamples.fs_two_candidates = Some "/tmp/vault.db".
Proof.
  apply (find_database_first_candidate MoreExamples.fs_two_candidates
           [ "/home/u/.local/share/com.zap-vault/vault.db";
             "/home/u/.local/share/zap-vault/vault.db";
             "/home/u/.config/zap-vault/vault.db" ]
           [ "/work/vault.db"; "/work/src-tauri/vault.db" ]
           "/tmp/vault.db").
  - reflexivity.
  - intros q Hq. simpl in Hq.
    repeat (destruct Hq as [Hq | Hq]; [subst q; reflexivity|]). destruct Hq.
  - reflexivity.
Defined.

Lemma find_database_falls_back_witness :
  find_database MoreExamples.fs_glob_only = Some "/home/u/.config/old/vault.db".
Proof.
  apply (find_database_falls_back MoreExamples.fs_glob_only
           [ "/home/u/.local/share/**/vault.db" ]
           [ "/tmp/**/vault.db"; "/work/**/vault.db" ]
           "/home/u/.config/**/vault.db"
           "/home/u/.config/old/vault.db" [ "/home/u/.config/new/vault.db" ]).
  - intros q _. reflexivity.
  - reflexivity.
  - intros q Hq. simpl in Hq. destruct Hq as [Hq | []]. subst q. reflexivity.
  - reflexivity.
Defined.

End LocatorOrder.

(* ================================================================= *)
(** ** What the inspector does to the connection and the database *)

Module InspectorEffects.

Local Open Scope list_scope.

Lemma run_stmt_reads_only s db res db' :
  inspector_statement s = true ->
  run_stmt s db = inr (res, db') -> db' = db.
Proof.
  intros Hs. destruct s; try discriminate Hs; cbn; unfold with_table;
    try (intros H; injection H as _ <-; reflexivity).
  - destruct (usb_drive_passwords db); intros H; [injection H as _ <-; reflexivity | discriminate H].
  - destruct (users db); intros H; [injection H as _ <-; reflexivity | discriminate H].
  - destruct (usb_drive_passwords db); intros H; [injection H as _ <-; reflexivity | discriminate H].
  - destruct (users db); intros H; [injection H as _ <-; reflexivity | discriminate H].
Qed.

Section Steady.

Variable faults : nat -> option string.
Variable db : Db.

(** [m] leaves an open connection on [db] as it is. *)
Definition steady {A : Type} (m : M A) : Prop :=
  forall st, conn st = mkConn db db true -> conn (snd (m st)) = mkConn db db true.

Lemma steady_ret {A} (a : A) : steady (ret a).
Proof. intros st H. exact H. Qed.

Lemma steady_raise {A} (e : Exn) : steady (@raise A e).
Proof. intros st H. exact H. Qed.

Lemma steady_print l : steady (print l).
Proof. intros st H. exact H. Qed.

Lemma steady_bind {A B} (m : M A) (k : A -> M B) :
  steady m -> (forall a, steady (k a)) -> steady (bind m k).
Proof.
  intros Hm Hk st H. unfold bind. specialize (Hm st H).
  destruct (m st) as [[e|a] st']; cbn in *; [exact Hm | apply Hk; exact Hm].
Qed.

Lemma steady_for_each {A} (l : list A) (body : A -> M unit) :
  (forall x, steady (body x)) -> steady (for_each l body).
Proof.
  intros Hb. induction l as [|x l IH]; simpl.
  - apply steady_ret.
  - apply steady_bind; [apply Hb | intros _; exact IH].
Qed.

Lemma steady_execute s : inspector_statement s = true -> steady (execute faults s).
Proof.
  intros Hs st H. unfold execute, record_call. rewrite H. cbn.
  destruct (faults (length (calls st))); cbn; [reflexivity|].
  destruct (run_stmt s db) as [e|[res db']] eqn:Hrun; cbn; [reflexivity|].
  rewrite (run_stmt_reads_only s db res db' Hs Hrun). reflexivity.
Qed.

Ltac steady_step :=
  first [ apply steady_ret | apply steady_raise | apply steady_print
        | apply steady_execute; reflexivity
        | apply steady_for_each; intros ?
        | apply steady_bind; [|intros ?]
        | match goal with
          | |- steady (if ?b then _ else _) => destruct b
          | |- steady (match ?x with _ => _ end) => destruct x
          end ].

Lemma steady_inspect_passwords : steady (inspect_passwords faults).
Proof.
  unfold inspect_passwords, print_item, fetchone_0, item, positive.
  repeat steady_step.
Qed.

Lemma steady_inspect_users : steady (inspect_users faults).
Proof.
  unfold inspect_users, print_item, fetchone_0, item, positive.
  repeat steady_step.
Qed.

(** The [try] block of [check_database] and its handler, from a connection
    just opened: the database is never changed, and the connection ends
    closed when every statement succeeded and open when one raised, the
    error then being the last line printed. *)
Lemma inspect_outcome cs o :
  let st := mkState (mkConn db db true) cs o in
  let r := try_except (inspect faults) (fun e => print (database_error e)) st in
  fst r = inr tt
  /\ match fst (inspect faults st) with
     | inr _ => conn (snd r) = mkConn db db false
     | inl e => conn (snd r) = mkConn db db true
                /\ exists pre, out (snd r) = pre ++ [database_error e]
     end.
Proof.
  cbv zeta. unfold try_except, inspect, bind.
  pose proof (steady_inspect_passwords (mkState (mkConn db db true) cs o) eq_refl) as H1.
  destruct (inspect_passwords faults (mkState (mkConn db db true) cs o))
    as [[e|[]] st1]; cbn in H1 |- *.
  - split; [reflexivity|]. split; [exact H1|]. eexists. reflexivity.
  - pose proof (steady_inspect_users st1 H1) as H2.
    destruct (inspect_users faults st1) as [[e|[]] st2]; cbn in H2 |- *.
    + split; [reflexivity|]. split; [exact H2|]. eexists. reflexivity.
    + rewrite H2. cbn. split; reflexivity.
Qed.

End Steady.


(** X5. The inspector only reads: whatever fails, the database it opened
    is left as it was, in the file and in the connection's view. *)
Theorem check_database_reads_only (faults : nat -> option string) (fs : FS)
    (path : string) (db : Db) :
  find_database fs = Some path ->
  entry fs path = Some (File db) ->
  exists c,
    connection (check_database faults fs) = Some c
    /\ durable c = db /\ view c = db.
Proof.
  intros Hfind He. rewrite (Inspector.check_database_at faults fs path db Hfind He).
  unfold finish. cbn [connection].
  pose proof (inspect_outcome faults db []
                [[Lit "✅ Database found at: "; Val (VText path)]]) as [_ H].
  cbv zeta in H.
  destruct (fst (inspect faults _)) as [e|[]].
  - destruct H as [H _]. eexists. split; [reflexivity|]. rewrite H. split; reflexivity.
  - eexists. split; [reflexivity|]. rewrite H. split; reflexivity.
Qed.


Lemma check_database_reads_only_witness :
  exists c,
    connection (check_database (fault_at 2 "disk I/O error")
                  (Examples.fs_with Examples.db_no_trust)) = Some c
    /\ durable c = Examples.db_no_trust /\ view c = Examples.db_no_trust.
Proof.
  exact (check_database_reads_only (fault_at 2 "disk I/O error")
           (Examples.fs_with Examples.db_no_trust) Examples.vault_path
           Examples.db_no_trust eq_refl eq_refl).
Defined.


End InspectorEffects.

(* ================================================================= *)
(** ** What the verifier does when something fails *)

Module VerifierEffects.

Import Verifier.
Local Open Scope list_scope.


(** X8. The trust record is committed before anything else is tried: once
    its insert and commit succeed, it is in the file at the end of the run,
    whatever fails afterwards. *)
Theorem trust_record_survives_later_failure (faults : nat -> option string)
    (d lvl now : string) (fs : FS) (db : Db) (t : Table TrustRow) :
  entry fs (vault_db_path fs) = Some (File db) ->
  usb_drive_trust db = Some t ->
  faults 0 = None ->
  faults 1 = None ->
  exists c,
    connection (test_trust_levels_with faults d lvl now fs) = Some c
    /\ usb_drive_trust (durable c) = Some (upsert_trust (trust_record d lvl now) t).
Proof.
  intros He Ht H0 H1. destruct (vault_db_found fs db He) as [Hex Hco].
  unfold test_trust_levels_with. rewrite Hex, Hco. cbn [negb].
  destruct db as [ot op ou oo]. simpl in Ht. subst ot.
  run_script; try congruence; eexists; split; reflexivity.
Qed.

(** X9. A record whose insert succeeded but whose commit failed is not in
    the file: when the commit of the password insert fails, closing the
    connection drops the password record, and the trust record, committed
    before, stays. *)
Theorem uncommitted_password_is_dropped (faults : nat -> option string)
    (d lvl now msg : string) (fs : FS) (db : Db)
    (t : Table TrustRow) (p : Table PasswordRow) :
  entry fs (vault_db_path fs) = Some (File db) ->
  usb_drive_trust db = Some t ->
  usb_drive_passwords db = Some p ->
  (forall n, n < 4 -> faults n = None) ->
  faults 4 = Some msg ->
  let run := test_trust_levels_with faults d lvl now fs in
  exists c line,
    connection run = Some c
    /\ usb_drive_passwords (durable c) = Some p
    /\ usb_drive_trust (durable c) = Some (upsert_trust (trust_record d lvl now) t)
    /\ In (Execute (UpsertPassword (password_record d now))) (calls_made run)
    /\ printed run
       = [ [Lit "✅ Successfully inserted test trust level"];
           line;
           operation_failed (OperationalError msg) ].
Proof.
  intros He Ht Hp Hok H4. destruct (vault_db_found fs db He) as [Hex Hco].
  pose proof (Hok 0 ltac:(lia)) as H0. pose proof (Hok 1 ltac:(lia)) as H1.
  pose proof (Hok 2 ltac:(lia)) as H2. pose proof (Hok 3 ltac:(lia)) as H3.
  cbv zeta. unfold test_trust_levels_with. rewrite Hex, Hco. cbn [negb].
  destruct db as [ot op ou oo]. simpl in Ht, Hp. subst ot op.
  run_script; try congruence;
    match goal with
    | Hs : faults 4 = Some ?s |- _ =>
        assert (Hmsg : s = msg) by congruence; subst s
    end;
    (eexists; eexists; split; [reflexivity|]; split; [reflexivity|];
     split; [reflexivity|]; split; [cbn; tauto | reflexivity]).
Qed.

(** X10. The line ["Trust level entry not found after insertion"] is never
    printed: when the read after the insert is reached, the table holds at
    least the record just written. *)
Theorem not_found_is_never_printed (faults : nat -> option string)
    (d lvl now : string) (fs : FS) :
  ~ In [Lit "❌ Trust level entry not found after insertion"]
       (printed (test_trust_levels_with faults d lvl now fs)).
Proof.
  unfold test_trust_levels_with, path_exists, connect.
  destruct (entry fs (vault_db_path fs)) as [[|db]|]; cbn [negb].
  - intros [].
  - destruct db as [ot op ou oo].
    run_script;
      try (intros H; unfold operation_failed in H; cbn in H;
           repeat (destruct H as [H | H]; [discriminate H|]); exact H).
    all: match goal with
         | Hl : filter _ (insert_or_replace _ _ _) = [] |- _ =>
             unfold insert_or_replace in Hl; rewrite filter_app in Hl; cbn in Hl;
             rewrite String.eqb_refl in Hl;
             apply app_eq_nil in Hl; destruct Hl as [_ Hl]; discriminate Hl
         end.
  - intros [H | []]. discriminate H.
Qed.

Lemma trust_record_survives_later_failure_witness :
  exists c,
    connection (test_trust_levels_with (fault_at 3 "database is locked")
                  "usb_sde1" "trusted" Examples.now
                  (Examples.fs_with Examples.db_fresh)) = Some c
    /\ usb_drive_trust (durable c)
       = Some (upsert_trust (trust_record "usb_sde1" "trusted" Examples.now)
                 (mkTable Examples.trust_columns false [])).
Proof.
  exact (trust_record_survives_later_failure (fault_at 3 "database is locked")
           "usb_sde1" "trusted" Examples.now (Examples.fs_with Examples.db_fresh)
           Examples.db_fresh (mkTable Examples.trust_columns false [])
           eq_refl eq_refl eq_refl eq_refl).
Defined.

Lemma uncommitted_password_is_dropped_witness :
  let run := test_trust_levels_with (fault_at 4 "disk I/O error")
               "usb_sde1" "trusted" Examples.now
               (Examples.fs_with Examples.db_fresh) in
  exists c line,
    connection run = Some c
    /\ usb_drive_passwords (durable c)
       = Some (mkTable Examples.password_columns false [])
    /\ usb_drive_trust (durable c)
       = Some (upsert_trust (trust_record "usb_sde1" "trusted" Examples.now)
                 (mkTable Examples.trust_columns false []))
    /\ In (Execute (UpsertPassword (password_record "usb_sde1" Examples.now)))
          (calls_made run)
    /\ printed run
       = [ [Lit "✅ Successfully inserted test trust level"];
           line;
           operation_failed (OperationalError "disk I/O error") ].
Proof.
  refine (uncommitted_password_is_dropped (fault_at 4 "disk I/O error")
            "usb_sde1" "trusted" Examples.now "disk I/O error"
            (Examples.fs_with Examples.db_fresh) Examples.db_fresh
            (mkTable Examples.trust_columns false [])
            (mkTable Examples.password_columns false [])
            eq_refl eq_refl eq_refl _ eq_refl).
  intros n Hn. destruct n as [|[|[|[|n]]]]; first [reflexivity | lia].
Defined.

End VerifierEffects.

(* ================================================================= *)
(** ** What the verifier does to the database *)

Module VerifierStore.

Import Verifier.
Local Open Scope list_scope.

Lemma filter_twice {R : Type} (f : R -> bool) (l : list R) :
  filter f (filter f l) = filter f l.
Proof.
  induction l as [|x l IH]; simpl.
  - reflexivity.
  - destruct (f x) eqn:Hx; simpl; [rewrite Hx, IH|]; auto.
Qed.

Lemma insert_or_replace_again {R : Type} (conflict : R -> R -> bool)
    (new : R) (rs : list R) :
  conflict new new = true ->
  insert_or_replace conflict new (insert_or_replace conflict new rs)
  = insert_or_replace conflict new rs.
Proof.
  intros Hself. unfold insert_or_replace. rewrite filter_app, filter_twice.
  simpl. rewrite Hself. simpl. rewrite app_nil_r. reflexivity.
Qed.

Lemma trust_conflict_self uq r : trust_conflict uq r r = true.
Proof. unfold trust_conflict. rewrite String.eqb_refl. reflexivity. Qed.

Lemma password_conflict_self uq r : password_conflict uq r r = true.
Proof. unfold password_conflict. rewrite String.eqb_refl. reflexivity. Qed.

Lemma upsert_trust_again r t : upsert_trust r (upsert_trust r t) = upsert_trust r t.
Proof.
  unfold upsert_trust. cbn [columns unique_user_drive rows].
  rewrite insert_or_replace_again by apply trust_conflict_self. reflexivity.
Qed.

Lemma upsert_password_again r p :
  upsert_password r (upsert_password r p) = upsert_password r p.
Proof.
  unfold upsert_password. cbn [columns unique_user_drive rows].
  rewrite insert_or_replace_again by apply password_conflict_self. reflexivity.
Qed.

(** X11. Running the verifier again, with the same constants, on the file
    a first run left behind changes nothing in the file, whichever tables
    the database has. *)
Theorem second_run_changes_nothing (d lvl now : string) (fs fs' : FS)
    (db : Db) (c : Conn) :
  entry fs (vault_db_path fs) = Some (File db) ->
  connection (test_trust_levels_with no_faults d lvl now fs) = Some c ->
  entry fs' (vault_db_path fs') = Some (File (durable c)) ->
  exists c',
    connection (test_trust_levels_with no_faults d lvl now fs') = Some c'
    /\ durable c' = durable c.
Proof.
  intros He Hc He'. destruct (vault_db_found fs db He) as [Hex Hco].
  unfold test_trust_levels_with in Hc. rewrite Hex, Hco in Hc. cbn [negb] in Hc.
  destruct db as [[t|] [p|] ou oo]; revert Hc; run_script; intros Hc;
    injection Hc as <-; cbn [durable] in He';
    destruct (vault_db_found fs' _ He') as [Hex' Hco'];
    unfold test_trust_levels_with; rewrite Hex', Hco'; cbn [negb];
    run_script; eexists; (split; [reflexivity|]); cbn [durable];
    rewrite ?upsert_trust_again, ?upsert_password_again; reflexivity.
Qed.

(** X12. Whatever fails, the verifier creates and drops no table and
    leaves the [users] table as it was. *)
Theorem verifier_keeps_catalog_and_users (faults : nat -> option string)
    (d lvl now : string) (fs : FS) (db : Db) :
  entry fs (vault_db_path fs) = Some (File db) ->
  exists c,
    connection (test_trust_levels_with faults d lvl now fs) = Some c
    /\ table_names (durable c) = table_names db
    /\ users (durable c) = users db.
Proof.
  intros He.
  destruct (verifier_final_db faults d lvl now fs db He) as [c [Hc [_ [_ [_ Hdb]]]]].
  exists c. split; [exact Hc|].
  destruct db as [ot op ou oo].
  destruct Hdb as [Hd | [db1 [H1 [Hd | [db2 [H2 Hd]]]]]].
  - rewrite Hd. split; reflexivity.
  - cbn in H1. destruct ot; cbn in H1; [|discriminate].
    injection H1 as <-. rewrite Hd. split; reflexivity.
  - cbn in H1. destruct ot; cbn in H1; [|discriminate].
    injection H1 as <-. cbn in H2. destruct op; cbn in H2; [|discriminate].
    injection H2 as <-. rewrite Hd. split; reflexivity.
Qed.

(** X13. Whatever fails, the only records the verifier removes are those
    that conflict with the record it writes: every trust record and every
    password record that does not conflict with the new one is still in the
    file after the run. *)
Theorem verifier_keeps_other_records (faults : nat -> option string)
    (d lvl now : string) (fs : FS) (db : Db) :
  entry fs (vault_db_path fs) = Some (File db) ->
  exists c,
    connection (test_trust_levels_with faults d lvl now fs) = Some c
    /\ (forall t r,
          usb_drive_trust db = Some t -> In r (rows t) ->
          trust_conflict (unique_user_drive t) (trust_record d lvl now) r = false ->
          exists t', usb_drive_trust (durable c) = Some t' /\ In r (rows t'))
    /\ (forall p r,
          usb_drive_passwords db = Some p -> In r (rows p) ->
          password_conflict (unique_user_drive p) (password_record d now) r = false ->
          exists p', usb_drive_passwords (durable c) = Some p' /\ In r (rows p')).
Proof.
  intros He.
  destruct (verifier_final_db faults d lvl now fs db He) as [c [Hc [_ [_ [_ Hdb]]]]].
  exists c. split; [exact Hc|].
  assert (Hkeep : forall (R : Type) (conflict : R -> R -> bool) new r rs,
             In r rs -> conflict new r = false ->
             In r (insert_or_replace conflict new rs)).
  { intros R conflict new r rs Hin Hno. unfold insert_or_replace.
    apply in_or_app. left. apply filter_In. rewrite Hno. split; [exact Hin | reflexivity]. }
  destruct db as [ot op ou oo]. cbn [usb_drive_trust usb_drive_passwords].
  destruct Hdb as [Hd | [db1 [H1 [Hd | [db2 [H2 Hd]]]]]].
  - rewrite Hd. split; intros x r Hx Hin _; exists x; split; assumption.
  - cbn in H1. destruct ot as [t0|]; cbn in H1; [|discriminate].
    injection H1 as <-. rewrite Hd. split.
    + intros t r Ht Hin Hno. injection Ht as <-. eexists. split; [reflexivity|].
      apply Hkeep; assumption.
    + intros p r Hp Hin _. exists p. split; assumption.
  - cbn in H1. destruct ot as [t0|]; cbn in H1; [|discriminate].
    injection H1 as <-. cbn in H2. destruct op as [p0|]; cbn in H2; [|discriminate].
    injection H2 as <-. rewrite Hd. split.
    + intros t r Ht Hin Hno. injection Ht as <-. eexists. split; [reflexivity|].
      apply Hkeep; assumption.
    + intros p r Hp Hin Hno. injection Hp as <-. eexists. split; [reflexivity|].
      apply Hkeep; assumption.
Qed.

Lemma second_run_changes_nothing_witness :
  exists c',
    connection (test_trust_levels_with no_faults "usb_sde1" "trusted" Examples.now
                  (Examples.fs_with Examples.db_seeded)) = Some c'
    /\ durable c' = Examples.db_seeded.
Proof.
  exact (second_run_changes_nothing "usb_sde1" "trusted" Examples.now
           (Examples.fs_with Examples.db_fresh) (Examples.fs_with Examples.db_seeded)
           Examples.db_fresh (mkConn Examples.db_seeded Examples.db_seeded false)
           eq_refl eq_refl eq_refl).
Defined.

Lemma verifier_keeps_catalog_and_users_witness :
  exists c,
    connection (test_trust_levels_with (fault_at 3 "database is locked")
                  "usb_sde1" "trusted" Examples.now
                  (Examples.fs_with Examples.db_no_users)) = Some c
    /\ table_names (durable c) = table_names Examples.db_no_users
    /\ users (durable c) = users Examples.db_no_users.
Proof.
  exact (verifier_keeps_catalog_and_users (fault_at 3 "database is locked")
           "usb_sde1" "trusted" Examples.now
           (Examples.fs_with Examples.db_no_users) Examples.db_no_users eq_refl).
Defined.

Lemma verifier_keeps_other_records_witness :
  exists c p',
    connection (test_trust_levels_with no_faults "usb_sde1" "trusted" Examples.now
                  (Examples.fs_with (Examples.db_app true))) = Some c
    /\ usb_drive_passwords (durable c) = Some p'
    /\ In Examples.app_password (rows p').
Proof.
  destruct (verifier_keeps_other_records no_faults "usb_sde1" "trusted" Examples.now
              (Examples.fs_with (Examples.db_app true)) (Examples.db_app true) eq_refl)
    as [c [Hc [_ Hp]]].
  destruct (Hp (mkTable Examples.password_columns true [Examples.app_password])
               Examples.app_password eq_refl (or_introl eq_refl) eq_refl)
    as [p' [Hp' Hin]].
  exists c, p'. split; [exact Hc|]. split; [exact Hp' | exact Hin].
Defined.

End VerifierStore.

(* ================================================================= *)
(** ** The recent entries *)

Module RecentEntries.

Local Open Scope list_scope.

Lemma ltb_asym (x y : string) : String.ltb x y = true -> String.ltb y x = false.
Proof.
  unfold String.ltb. rewrite (String.compare_antisym x y).
  destruct (String.compare y x); simpl; intros H; first [reflexivity | discriminate H].
Qed.

Lemma insert_desc_perm x l : Permutation (insert_desc x l) (x :: l).
Proof.
  induction l as [|y l IH]; simpl.
  - apply Permutation_refl.
  - destruct (String.ltb (pw_created_at x) (pw_created_at y)).
    + apply perm_trans with (y :: x :: l); [apply perm_skip; exact IH | apply perm_swap].
    + apply Permutation_refl.
Qed.

Lemma order_perm l : Permutation (order_by_created_at_desc l) l.
Proof.
  induction l as [|x l IH]; simpl.
  - apply perm_nil.
  - apply perm_trans with (x :: order_by_created_at_desc l);
      [apply insert_desc_perm | apply perm_skip; exact IH].
Qed.

Lemma insert_desc_hd x y l :
  not_older y x -> HdRel not_older y l -> HdRel not_older y (insert_desc x l).
Proof.
  intros Hyx Hl. destruct l as [|z l]; simpl.
  - constructor. exact Hyx.
  - destruct (String.ltb (pw_created_at x) (pw_created_at z)); constructor.
    + inversion Hl; assumption.
    + exact Hyx.
Qed.

Lemma insert_desc_sorted x l :
  Sorted not_older l -> Sorted not_older (insert_desc x l).
Proof.
  induction l as [|y l IH]; simpl; intros Hs.
  - constructor; constructor.
  - inversion Hs as [|? ? Hl Hhd]; subst.
    destruct (String.ltb (pw_created_at x) (pw_created_at y)) eqn:Hxy.
    + constructor; [apply IH; exact Hl|].
      apply insert_desc_hd; [|exact Hhd]. apply ltb_asym. exact Hxy.
    + constructor; [exact Hs|]. constructor. exact Hxy.
Qed.

Lemma order_sorted l : Sorted not_older (order_by_created_at_desc l).
Proof.
  induction l as [|x l IH]; simpl.
  - constructor.
  - apply insert_desc_sorted. exact IH.
Qed.

(** X14. The query of the recent entries returns the eight selected
    columns of at most five records, exactly five when the table has that
    many: the first five of the table's records put in an order in which no
    record is directly followed by a newer one. *)
Theorem recent_entries_newest_first (db : Db) (p : Table PasswordRow) :
  usb_drive_passwords db = Some p ->
  exists sorted,
    Permutation sorted (rows p)
    /\ Sorted not_older sorted
    /\ run_stmt RecentPasswords db = inr (map recent_values (firstn 5 sorted), db)
    /\ length (firstn 5 sorted) = Nat.min 5 (length (rows p)).
Proof.
  intros Hp. exists (order_by_created_at_desc (rows p)).
  split; [apply order_perm|]. split; [apply order_sorted|]. split.
  - cbn. rewrite Hp. reflexivity.
  - rewrite length_firstn. rewrite (Permutation_length (order_perm (rows p))).
    reflexivity.
Qed.

Lemma recent_entries_newest_first_witness :
  exists sorted,
    Permutation sorted MoreExamples.four_passwords
    /\ Sorted not_older sorted
    /\ run_stmt RecentPasswords MoreExamples.db_four_passwords
       = inr (map recent_values (firstn 5 sorted), MoreExamples.db_four_passwords)
    /\ length (firstn 5 sorted) = 4.
Proof.
  exact (recent_entries_newest_first MoreExamples.db_four_passwords
           (mkTable Examples.password_columns false MoreExamples.four_passwords)
           eq_refl).
Defined.

End RecentEntries.
